(** * Scene objects of compas: a shallow embedding of
    [src/compas/scene/sceneobject.py] and of the polyhedron test.

    Python objects live in a heap indexed by references; a method of
    [SceneObject] is a computation over the world (heap and drawing
    backend) that either returns a value or raises, and in both cases
    leaves the world it reached. *)

From Stdlib Require Import ZArith.
From stdpp Require Import gmap strings list.

(** ** Collaborators

    [sceneobject.py] imports [Transformation], [Color], [TreeNode], the
    context registry and the backend's [clear]; none of them is defined in
    the file, so the embedding takes them as an interface. *)

Class Collaborators := {
  (** the geometry or data structure wrapped by a scene object *)
  Item : Type;
  item_name : Item -> string;
  (** handles returned by the drawing backend *)
  Guid : Type;
  (** [compas.geometry.Frame] and [compas.geometry.Transformation];
      instances of both are truthy *)
  Frame : Type;
  Transformation : Type;
  (** [Transformation()] *)
  Transformation_identity : Transformation;
  (** [Transformation.from_frame(f)] *)
  Transformation_from_frame : Frame -> Transformation;
  (** [operator.mul] on transformations, also used by [*=] *)
  mul : Transformation -> Transformation -> Transformation;
  (** [compas.colors.Color]; instances are truthy *)
  Color : Type;
  (** [color.is_light], [color.darkened(p)], [color.lightened(p)] *)
  is_light : Color -> bool;
  darkened : Color -> Z -> Color;
  lightened : Color -> Z -> Color;
  (** the class-level default served by the [color] descriptor *)
  default_color : Color;
  (** the type of [opacity] and its default [1.0] *)
  Float : Type;
  float_one : Float;
  (** concrete scene object classes and the registry lookup
      [get_sceneobject_cls(item, context=...)]; [None] stands for the
      lookup raising because nothing is registered *)
  Cls : Type;
  get_sceneobject_cls : Item -> option string -> option Cls;
  (** the drawing backend: [clear(guids=...)] of [compas.scene.context]
      and the handles a concrete [draw] obtains for an item *)
  Backend : Type;
  context_clear : list Guid -> Backend -> Backend;
  backend_draw : Item -> Backend -> list Guid * Backend;
}.

Section SceneObject.

Context `{Collaborators}.

(** ** Data model *)

(** A reference to a Python object. *)
Definition ref := nat.

(** The instance attributes set by [TreeNode.__init__] and
    [SceneObject.__init__]. *)
Record SceneObject := mkSceneObject {
  cls : Cls;
  name : string;
  _parent : option ref;
  _children : list ref;
  context : option string;
  _item : Item;
  _guids : option (list Guid);
  _node : option ref;
  _frame : option Frame;
  _transformation : option Transformation;
  _contrastcolor : option Color;
  _color : option Color;
  opacity : Float;
  show : bool;
}.

Definition set_parent (v : option ref) (o : SceneObject) : SceneObject :=
  mkSceneObject (cls o) (name o) v (_children o) (context o) (_item o)
    (_guids o) (_node o) (_frame o) (_transformation o) (_contrastcolor o)
    (_color o) (opacity o) (show o).

Definition set_children (v : list ref) (o : SceneObject) : SceneObject :=
  mkSceneObject (cls o) (name o) (_parent o) v (context o) (_item o)
    (_guids o) (_node o) (_frame o) (_transformation o) (_contrastcolor o)
    (_color o) (opacity o) (show o).

Definition set_guids (v : option (list Guid)) (o : SceneObject) : SceneObject :=
  mkSceneObject (cls o) (name o) (_parent o) (_children o) (context o) (_item o)
    v (_node o) (_frame o) (_transformation o) (_contrastcolor o)
    (_color o) (opacity o) (show o).

Definition set_frame (v : option Frame) (o : SceneObject) : SceneObject :=
  mkSceneObject (cls o) (name o) (_parent o) (_children o) (context o) (_item o)
    (_guids o) (_node o) v (_transformation o) (_contrastcolor o)
    (_color o) (opacity o) (show o).

Definition set_transformation (v : option Transformation) (o : SceneObject)
  : SceneObject :=
  mkSceneObject (cls o) (name o) (_parent o) (_children o) (context o) (_item o)
    (_guids o) (_node o) (_frame o) v (_contrastcolor o)
    (_color o) (opacity o) (show o).

Definition set_contrastcolor (v : option Color) (o : SceneObject) : SceneObject :=
  mkSceneObject (cls o) (name o) (_parent o) (_children o) (context o) (_item o)
    (_guids o) (_node o) (_frame o) (_transformation o) v
    (_color o) (opacity o) (show o).

Definition set_color (v : option Color) (o : SceneObject) : SceneObject :=
  mkSceneObject (cls o) (name o) (_parent o) (_children o) (context o) (_item o)
    (_guids o) (_node o) (_frame o) (_transformation o) (_contrastcolor o)
    v (opacity o) (show o).

(** The world a method runs in. *)
Record World := mkWorld {
  heap : gmap ref SceneObject;
  backend : Backend;
}.

Definition with_heap (h : gmap ref SceneObject) (w : World) : World :=
  mkWorld h (backend w).

Definition with_backend (b : Backend) (w : World) : World :=
  mkWorld (heap w) b.

(** ** Exceptions and the method monad *)

Inductive exn :=
  | TypeError (msg : string)
  | Exception (msg : string)
  | NotImplementedError
  | SceneObjectNotRegisteredError (item : Item) (ctx : option string)
  (** a reference that names no object: cannot happen in Python, kept so
      that the heap lookup is total *)
  | DanglingReference (r : ref).

Record M (A : Type) : Type := mkM { run : World -> (exn + A) * World }.
Arguments mkM {A} _.
Arguments run {A} _ _.

Definition ret {A} (a : A) : M A := mkM (fun w => (inr a, w)).

Definition raise {A} (e : exn) : M A := mkM (fun w => (inl e, w)).

Definition bind {A B} (m : M A) (k : A -> M B) : M B :=
  mkM (fun w =>
    match run m w with
    | (inl e, w') => (inl e, w')
    | (inr a, w') => run (k a) w'
    end).

#[export] Instance M_ret : MRet M := @ret.
#[export] Instance M_bind : MBind M := fun A B k m => bind m k.

(** Attribute access on the object behind a reference. *)
Definition deref (r : ref) : M SceneObject :=
  mkM (fun w =>
    match heap w !! r with
    | Some o => (inr o, w)
    | None => (inl (DanglingReference r), w)
    end).

(** Attribute assignment: [f] rewrites the fields of the object in place. *)
Definition assign (r : ref) (f : SceneObject -> SceneObject) : M unit :=
  o ← deref r;
  mkM (fun w => (inr tt, with_heap (<[r := f o]> (heap w)) w)).

(** ** Collaborating classes *)

(** Modelled from the spec: [TreeNode] is not among the source files; the
    spec describes it as a container that supports parent/child
    composition and identification of root nodes.  The root of a tree is
    the node without a parent. *)
Definition is_root (o : SceneObject) : bool :=
  match _parent o with
  | None => true
  | Some _ => false
  end.

(** Modelled from the spec: [TreeNode.add] is not among the source files;
    the spec says that adding mutates the tree by appending the child
    under [self]; the child's parent link is what the walk to the root
    follows. *)
Definition TreeNode_add (self node : ref) : M unit :=
  o ← deref self;
  assign self (set_children (_children o ++ [node]));;
  assign node (set_parent (Some self)).

(** Modelled from the spec: the [ColorAttribute] descriptor behind
    [color = ColorAttribute()] is not among the source files; the spec says
    that getting with no explicit value returns the class default. *)
Definition color (o : SceneObject) : Color :=
  match _color o with
  | Some c => c
  | None => default_color
  end.

(** Modelled from the spec: the setter half of the [ColorAttribute]
    descriptor is not among the source files; the spec says that setting
    the colour clears any cached contrast colour. *)
Definition color_set (self : ref) (value : Color) : M unit :=
  assign self (fun o => set_contrastcolor None (set_color (Some value) o)).

(** [functools.reduce(f, xs)] without an initial value: a left fold seeded
    with the first element, a [TypeError] ([None] here) on an empty list. *)
Definition reduce {A} (f : A -> A -> A) (xs : list A) : option A :=
  match xs with
  | [] => None
  | x :: rest => Some (foldl f x rest)
  end.

(** ** [SceneObject] *)

(** The keyword arguments [__init__] names.  For [name], [color], [frame]
    and [transformation] an absent keyword and an explicit [None] are the
    same call; [add] asks whether [context] is present at all, so its
    presence is kept apart from its value. *)
Record Kwargs := mkKwargs {
  kw_name : option string;
  kw_color : option Color;
  kw_opacity : option Float;
  kw_show : option bool;
  kw_frame : option Frame;
  kw_transformation : option Transformation;
  kw_context : option (option string);
}.

Definition no_kwargs : Kwargs :=
  mkKwargs None None None None None None None.

Definition with_context (c : option (option string)) (k : Kwargs) : Kwargs :=
  mkKwargs (kw_name k) (kw_color k) (kw_opacity k) (kw_show k) (kw_frame k)
    (kw_transformation k) c.

(** [name or item.name]: the empty string is falsy. *)
Definition name_or (n : option string) (item : Item) : string :=
  match n with
  | Some (String a s) => String a s
  | _ => item_name item
  end.

(** A new object: some reference the heap does not use yet. *)
Definition alloc (o : SceneObject) : M ref :=
  mkM (fun w =>
    let r := fresh (dom (heap w)) in
    (inr r, with_heap (<[r := o]> (heap w)) w)).

(** [SceneObject(item, **kwargs)]: [__new__] asks the registry for the
    class, [__init__] fills in the attributes. *)
Definition SceneObject_new (item : Item) (kwargs : Kwargs) : M ref :=
  let ctx := default None (kw_context kwargs) in
  match get_sceneobject_cls item ctx with
  | None => raise (SceneObjectNotRegisteredError item ctx)
  | Some sceneobject_cls =>
    self ← alloc {|
      cls := sceneobject_cls;
      name := name_or (kw_name kwargs) item;
      _parent := None;
      _children := [];
      context := ctx;
      _item := item;
      _guids := None;
      _node := None;
      _frame := kw_frame kwargs;
      _transformation := kw_transformation kwargs;
      _contrastcolor := None;
      _color := None;
      opacity := default float_one (kw_opacity kwargs);
      show := default true (kw_show kwargs);
    |};
    o ← deref self;
    color_set self (default (color o) (kw_color kwargs));;
    mret self
  end.

(** [__from_data__]: a class method; neither the class nor the data is
    looked at. *)
Definition __from_data__ {Data : Type} (c : Cls) (data : Data) : M unit :=
  raise (TypeError "Serialisation outside Scene not allowed."%string).

Definition item (o : SceneObject) : Item := _item o.

(** [self._guids or []] *)
Definition guids (o : SceneObject) : list Guid :=
  match _guids o with
  | Some (g :: gs) => g :: gs
  | _ => []
  end.

Definition frame (o : SceneObject) : option Frame := _frame o.

Definition frame_set (self : ref) (f : option Frame) : M unit :=
  assign self (set_frame f).

Definition transformation (o : SceneObject) : option Transformation :=
  _transformation o.

Definition transformation_set (self : ref) (t : option Transformation) : M unit :=
  assign self (set_transformation t).

(** The [while] loop of [worldtransformation]; [h] is the heap the parent
    links point into.  [None] when the fuel runs out or a link dangles. *)
Fixpoint frame_stack_loop (fuel : nat) (h : gmap ref SceneObject)
    (parent : option ref) (frame_stack : list Frame) : option (list Frame) :=
  match fuel with
  | O => None
  | S fuel' =>
    match parent with
    | None => Some frame_stack
    | Some p =>
      match h !! p with
      | None => None
      | Some po =>
        if is_root po then Some frame_stack
        else
          let frame_stack' :=
            match frame po with
            | Some f => frame_stack ++ [f]
            | None => frame_stack
            end in
          frame_stack_loop fuel' h (_parent po) frame_stack'
      end
    end
  end.

Definition worldtransformation (fuel : nat) (h : gmap ref SceneObject)
    (self : SceneObject) : option Transformation :=
  frame_stack ← frame_stack_loop fuel h (_parent self) [];
  let matrices := Transformation_from_frame <$> frame_stack in
  worldtransformation ←
    match matrices with
    | _ :: _ => reduce mul (reverse matrices)
    | [] => Some Transformation_identity
    end;
  match transformation self with
  | Some t => Some (mul worldtransformation t)
  | None => Some worldtransformation
  end.

(** The [contrastcolor] getter: computes and stores the value unless one is
    stored already. *)
Definition contrastcolor (self : ref) : M Color :=
  o ← deref self;
  match _contrastcolor o with
  | Some c => mret c
  | None =>
    let c := if is_light (color o) then darkened (color o) 50
             else lightened (color o) 50 in
    assign self (set_contrastcolor (Some c));;
    mret c
  end.

(** The [contrastcolor] setter; [Color.coerce] returns a colour as it is. *)
Definition contrastcolor_set (self : ref) (c : Color) : M unit :=
  assign self (set_contrastcolor (Some c)).

(** What [add] is given: a scene object, or an item to wrap in one. *)
Inductive add_arg :=
  | IsSceneObject (r : ref)
  | IsItem (i : Item).

(** [str.format] of a context value. *)
Definition format_context (c : option string) : string :=
  match c with
  | Some s => s
  | None => "None"%string
  end.

Definition context_mismatch (child parent : option string) : exn :=
  Exception ("Child context should be the same as parent context: "
             +:+ format_context child +:+ " != " +:+ format_context parent).

Definition add (self : ref) (item : add_arg) (kwargs : Kwargs) : M ref :=
  sceneobject ←
    match item with
    | IsSceneObject r => mret r
    | IsItem i =>
      o ← deref self;
      kwargs' ←
        match kw_context kwargs with
        | Some c =>
          if decide (c ≠ context o) then raise (context_mismatch c (context o))
          else mret (with_context None kwargs)
        | None => mret kwargs
        end;
      SceneObject_new i (with_context (Some (context o)) kwargs')
    end;
  TreeNode_add self sceneobject;;
  mret sceneobject.

(** The abstract [draw] of the base class. *)
Definition draw (self : ref) : M unit := raise NotImplementedError.

(** Modelled from the spec: the concrete scene object classes are not among
    the source files; the spec expects their [draw] to call into the
    drawing backend and to store the returned handles into [guids]. *)
Definition draw_concrete (self : ref) : M unit :=
  o ← deref self;
  handles ← mkM (fun w =>
    let '(gs, b) := backend_draw (item o) (backend w) in
    (inr gs, with_backend b w));
  assign self (set_guids (Some handles)).

(** [clear(guids=self.guids)] hands the handles to the backend. *)
Definition backend_clear (gs : list Guid) : M unit :=
  mkM (fun w => (inr tt, with_backend (context_clear gs (backend w)) w)).

Definition clear (self : ref) : M unit :=
  o ← deref self;
  backend_clear (guids o);;
  assign self (set_guids None).

(** ** The world transformation as the specification words it *)

(** The ancestors the walk visits, nearest first: it starts at the parent
    link [p] and goes upward, and the root of the tree is not among them. *)
Inductive visited_ancestors (h : gmap ref SceneObject)
    : option ref -> list SceneObject -> Prop :=
  | visited_orphan : visited_ancestors h None []
  | visited_root p po :
      h !! p = Some po -> is_root po = true ->
      visited_ancestors h (Some p) []
  | visited_above p po rest :
      h !! p = Some po -> is_root po = false ->
      visited_ancestors h (_parent po) rest ->
      visited_ancestors h (Some p) (po :: rest).

(** The frames collected from them; an ancestor without a frame is
    skipped. *)
Definition collected_frames (visited : list SceneObject) : list Frame :=
  omap frame visited.

(** The product of the collected frames [fs] (in collection order, nearest
    ancestor first), each converted to a transformation, with the
    outermost as the leftmost factor: the nearest ancestor is multiplied on
    last, from the right. *)
Fixpoint outermost_first (fs : list Frame) : Transformation :=
  match fs with
  | [] => Transformation_identity
  | f :: rest =>
    match rest with
    | [] => Transformation_from_frame f
    | _ :: _ => mul (outermost_first rest) (Transformation_from_frame f)
    end
  end.

Definition worldtransformation_spec (visited : list SceneObject)
    (own : option Transformation) : Transformation :=
  let composed := outermost_first (collected_frames visited) in
  match own with
  | Some t => mul composed t
  | None => composed
  end.

End SceneObject.

Arguments mkM {_ A} _.
Arguments run {_ A} _ _.

(** ** [settings] and [__data__] *)

Section SceneExport.

#[local] Set Warnings "-register-all".

Context `{Collaborators}.

(** [str(item.guid)]: the identity under which an item is exported. *)
Variable item_guid : Item -> string.

(** The values of the [settings] dict. *)
Inductive setting :=
  | SName (s : string)
  | SColor (c : Color)
  | SOpacity (x : Float)
  | SShow (b : bool)
  | SFrame (f : Frame)
  | STransformation (t : Transformation).

Definition settings (o : SceneObject) : gmap string setting :=
  let settings : gmap string setting :=
    <["show"%string := SShow (show o)]>
      (<["opacity"%string := SOpacity (opacity o)]>
         (<["color"%string := SColor (color o)]>
            (<["name"%string := SName (name o)]> ∅))) in
  let settings :=
    match frame o with
    | Some f => <["frame"%string := SFrame f]> settings
    | None => settings
    end in
  let settings :=
    match transformation o with
    | Some t => <["transformation"%string := STransformation t]> settings
    | None => settings
    end in
  settings.

(** The nested dict that [__data__] builds. *)
Inductive data :=
  | Data (item : string) (settings : gmap string setting)
         (children : list data).

Definition data_item (d : data) : string :=
  match d with Data i _ _ => i end.

Definition data_settings (d : data) : gmap string setting :=
  match d with Data _ s _ => s end.

Definition data_children (d : data) : list data :=
  match d with Data _ _ c => c end.

(** [__data__] recurses into the children through the heap; [None] when
    the fuel runs out or a child link dangles. *)
Fixpoint __data__ (fuel : nat) (h : gmap ref SceneObject)
    (self : SceneObject) : option data :=
  match fuel with
  | O => None
  | S fuel' =>
    children ←
      mapM (fun child => o ← h !! child; __data__ fuel' h o) (_children self);
    Some (Data (item_guid (item self)) (settings self) children)
  end.

(** The objects below [o] form a tree of height less than [d]: every
    child link leads to an object, and so on downward, [d] levels at
    most. *)
Fixpoint tree_below (d : nat) (h : gmap ref SceneObject) (o : SceneObject)
    : Prop :=
  match d with
  | O => False
  | S d' =>
    Forall (fun child => exists c, h !! child = Some c /\ tree_below d' h c)
           (_children o)
  end.

(** The nested dict [d] mirrors the tree below [o]: it carries the
    identity of the item and the settings of [o], and its children mirror,
    in order, the trees below the children of [o]. *)
Inductive mirrors (h : gmap ref SceneObject) : SceneObject -> data -> Prop :=
  | mirrors_node o children :
      Forall2 (fun child dc => exists c, h !! child = Some c /\ mirrors h c dc)
              (_children o) children ->
      mirrors h o (Data (item_guid (item o)) (settings o) children).

(** The number of scene objects in the tree below [o], [o] included, and
    the number of dicts in an exported tree. *)
Fixpoint count_objects (d : nat) (h : gmap ref SceneObject) (o : SceneObject)
    : nat :=
  match d with
  | O => 0
  | S d' =>
    S (sum_list ((fun child =>
                    match h !! child with
                    | Some c => count_objects d' h c
                    | None => 0
                    end) <$> _children o))
  end.

Fixpoint count_dicts (d : data) : nat :=
  match d with
  | Data _ _ children => S (sum_list (count_dicts <$> children))
  end.

(** The references of the ancestors that the walk of [worldtransformation]
    visits from the parent link [p] upward, the root left out. *)
Inductive visited_refs (h : gmap ref SceneObject)
    : option ref -> list ref -> Prop :=
  | refs_orphan : visited_refs h None []
  | refs_root p po :
      h !! p = Some po -> is_root po = true ->
      visited_refs h (Some p) []
  | refs_above p po rest :
      h !! p = Some po -> is_root po = false ->
      visited_refs h (_parent po) rest ->
      visited_refs h (Some p) (p :: rest).

End SceneExport.

(** ** The polyhedron of [tests/compas/geometry/test_polyhedron.py] *)

(** [compas.itertools.pairwise]: the consecutive pairs of a sequence. *)
Definition pairwise {A} (xs : list A) : list (A * A) :=
  zip xs (tail xs).

Module Polyhedron.

(** Modelled from the spec: [compas.geometry.Polyhedron] is not among the
    source files; the spec describes the geometry types as value containers
    of vertices and faces with derived point and line accessors. *)
Record t := mk {
  vertices : list (list Z);
  faces : list (list nat);
  name : string;
}.

(** Modelled from the spec: the [points] accessor is not among the source
    files; the spec says that the points equal the vertices. *)
Definition points (p : t) : list (list Z) := vertices p.

(** Modelled from the spec: the edges of a polyhedron are not among the
    source files; the spec derives the lines from the vertices and the
    faces, and says that for a face they are the consecutive pairs of its
    vertex ring, including the closing edge back to its first vertex.  A
    face is a ring of indices into the vertices. *)
Definition ring (face : list nat) : list (nat * nat) :=
  pairwise (face ++ take 1 face).

(** An edge that two faces share is one edge: a pair is kept unless it or
    its reverse has been seen. *)
Fixpoint new_edges (seen pairs : list (nat * nat)) : list (nat * nat) :=
  match pairs with
  | [] => []
  | (u, v) :: rest =>
    if decide ((u, v) ∈ seen \/ (v, u) ∈ seen) then new_edges seen rest
    else (u, v) :: new_edges ((u, v) :: seen) rest
  end.

Definition edges (p : t) : list (nat * nat) :=
  new_edges [] (mjoin (ring <$> faces p)).

(** Modelled from the spec: the [lines] accessor is not among the source
    files; a line joins the two vertices of an edge.  [None] when a face
    names a vertex that is not there. *)
Definition lines (p : t) : option (list (list Z * list Z)) :=
  mapM (fun '(u, v) =>
          a ← vertices p !! u; b ← vertices p !! v; Some (a, b))
       (edges p).

End Polyhedron.

(** The values and the assertions of [test_polyhedron]. *)
Definition test_vertices : list (list Z) :=
  [[0; 0; 0]; [1; 0; 0]; [1; 1; 0]; [0; 1; 0]]%Z.

Definition test_faces : list (list nat) := [[0; 1; 2; 3]].

Definition test_name : string := "Test Polyhedron".

Definition test_polyhedron : bool :=
  let vertices := test_vertices in
  let faces := test_faces in
  let name := test_name in
  let polyhedron := Polyhedron.mk vertices faces name in
  bool_decide (Polyhedron.vertices polyhedron = vertices)
  && bool_decide (Polyhedron.faces polyhedron = faces)
  && bool_decide (Polyhedron.name polyhedron = name)
  && bool_decide (Polyhedron.points polyhedron = vertices)
  && bool_decide (Polyhedron.lines polyhedron
                  = Some (pairwise (vertices ++ take 1 vertices)))
  && bool_decide (Polyhedron.points polyhedron !! 0 = vertices !! 0)
  && bool_decide (last (Polyhedron.points polyhedron)
                  <> Polyhedron.points polyhedron !! 0).

(** A tetrahedron, to see shared edges counted once. *)
Definition tetrahedron : Polyhedron.t :=
  Polyhedron.mk [[0; 0; 0]; [1; 0; 0]; [0; 1; 0]; [0; 0; 1]]%Z
                [[0; 2; 1]; [0; 1; 3]; [1; 2; 3]; [2; 0; 3]]
                "Tetrahedron".

(** ** The strip of polygons of
    [docs/userguide/samples/colors_maps_from-one-color.py] *)

Section Strip.

(** The numbers [linspace] yields and the points built from them;
    [Point i] is [Point(i, 0, 0)], [shift_up] adds [[0, t, 0]] and
    [shift_down] subtracts it. *)
Variables (number point : Type).
Variable Point : number -> point.
Variables (shift_up shift_down : point -> point).

(** The first loop: [up] and [down] grow by one point per number. *)
Definition rails (numbers : list number) : list point * list point :=
  foldl (fun '(up, down) i =>
           let point := Point i in
           (up ++ [shift_up point], down ++ [shift_down point]))
        ([], []) numbers.

(** The second loop: one polygon [[a, b, c, d]] per pair of consecutive
    pairs [(d, c)] of [up] and [(a, b)] of [down]. *)
Definition polygons (up down : list point) : list (list point) :=
  foldl (fun polygons '((d, c), (a, b)) => polygons ++ [[a; b; c; d]])
        [] (zip (pairwise up) (pairwise down)).

End Strip.

(** ** A small instance of the interface

    Concrete stand-ins for the collaborators, to run the methods on
    concrete scenes.  A transformation is the affine map [x ↦ a·x + b] on
    the integers, written [(a, b)]; composing two of them does not commute,
    so the order of a product shows in its value.  A colour is an RGB
    triple of integers in [0, 255]. *)

Module Toy.

Definition affine_mul (s t : Z * Z) : Z * Z :=
  ((s.1 * t.1)%Z, (s.1 * t.2 + s.2)%Z).

Definition luminance (c : Z * Z * Z) : Z :=
  (299 * c.1.1 + 587 * c.1.2 + 114 * c.2)%Z.

Definition rgb_is_light (c : Z * Z * Z) : bool :=
  (127500 <? luminance c)%Z.

Definition rgb_darkened (c : Z * Z * Z) (p : Z) : Z * Z * Z :=
  ((c.1.1 * (100 - p) / 100)%Z,
   (c.1.2 * (100 - p) / 100)%Z,
   (c.2 * (100 - p) / 100)%Z).

Definition rgb_lightened (c : Z * Z * Z) (p : Z) : Z * Z * Z :=
  ((c.1.1 + (255 - c.1.1) * p / 100)%Z,
   (c.1.2 + (255 - c.1.2) * p / 100)%Z,
   (c.2 + (255 - c.2) * p / 100)%Z).

(** Two registered contexts; an item named ["unknown"] has no class. *)
Definition registry (i : string) (ctx : option string) : option string :=
  if decide (i = "unknown"%string) then None
  else match ctx with
       | None => Some "ViewerObject"%string
       | Some c =>
         if decide (c = "Rhino"%string) then Some "RhinoObject"%string
         else if decide (c = "Blender"%string) then Some "BlenderObject"%string
         else None
       end.

(** The backend logs the handles it was asked to release and numbers the
    handles it gives out. *)
Record backend_state := mkBackend {
  released : list (list nat);
  next_handle : nat;
}.

Definition toy : Collaborators := {|
  Item := string;
  item_name := fun i => i;
  Guid := nat;
  Frame := Z * Z;
  Transformation := Z * Z;
  Transformation_identity := (1%Z, 0%Z);
  Transformation_from_frame := fun f => f;
  mul := affine_mul;
  Color := Z * Z * Z;
  is_light := rgb_is_light;
  darkened := rgb_darkened;
  lightened := rgb_lightened;
  default_color := (0%Z, 0%Z, 0%Z);
  Float := Z;
  float_one := 1%Z;
  Cls := string;
  get_sceneobject_cls := registry;
  Backend := backend_state;
  context_clear := fun gs b => mkBackend (released b ++ [gs]) (next_handle b);
  backend_draw := fun _ b =>
    ([next_handle b; S (next_handle b)],
     mkBackend (released b) (2 + next_handle b));
|}.

#[local] Existing Instance toy.

(** A scene object with the attributes a test needs to choose. *)
Definition obj (n : string) (parent : option ref) (children : list ref)
    (ctx : option string) (fr tr : option (Z * Z)) : SceneObject :=
  {| cls := "ViewerObject"%string; name := n; _parent := parent;
     _children := children; context := ctx; _item := n; _guids := None;
     _node := None; _frame := fr; _transformation := tr;
     _contrastcolor := None; _color := None; opacity := 1%Z; show := true |}.

Definition world_of (h : gmap ref SceneObject) : World :=
  mkWorld h (mkBackend [] 0).

(** A chain of four objects: 0 is the root, 1 its child, 2 the child of 1,
    3 the child of 2.  The root carries a frame too. *)
Definition obj_root : SceneObject :=
  obj "root" None [1] None (Some (7, 7)%Z) None.
Definition obj_a : SceneObject :=
  obj "a" (Some 0) [2] None (Some (2, 1)%Z) None.
Definition obj_b : SceneObject :=
  obj "b" (Some 1) [3] None (Some (3, 5)%Z) None.
Definition obj_c : SceneObject :=
  obj "c" (Some 2) [] None (Some (11, 13)%Z) (Some (1, 4)%Z).

Definition chain4 : gmap ref SceneObject :=
  <[0 := obj_root]> (<[1 := obj_a]> (<[2 := obj_b]> (<[3 := obj_c]> ∅))).

(** Two unrelated scene objects created for different contexts. *)
Definition obj_p : SceneObject :=
  obj "p" None [] (Some "Rhino"%string) None None.
Definition obj_s : SceneObject :=
  obj "s" None [] (Some "Blender"%string) None None.

Definition rhino_blender : gmap ref SceneObject :=
  <[0 := obj_p]> (<[1 := obj_s]> ∅).

Definition white : Z * Z * Z := (255, 255, 255)%Z.
Definition navy : Z * Z * Z := (0, 0, 128)%Z.
Definition red : Z * Z * Z := (255, 0, 0)%Z.

(** A single white scene object. *)
Definition obj_white : SceneObject :=
  set_color (Some white) (obj "m" None [] None None None).

Definition white_scene : gmap ref SceneObject := <[0 := obj_white]> ∅.

(** The identity under which an item is exported. *)
Definition toy_guid (i : string) : string := "guid-" +:+ i.

(** A mesh that no class is registered for, and keyword arguments that
    place a child. *)
Definition placed : Kwargs :=
  mkKwargs (Some "leaf"%string) None None None (Some (9, 9)%Z)
           (Some (1, 4)%Z) None.

(** The points of the strip: a number [i] on the axis, moved up and down
    by 3. *)
Definition axis_point (i : Z) : Z * Z := (i, 0%Z).
Definition up3 (p : Z * Z) : Z * Z := (p.1, (p.2 + 3)%Z).
Definition down3 (p : Z * Z) : Z * Z := (p.1, (p.2 - 3)%Z).

End Toy.

(** * Properties *)

Section SceneObjectFacts.

Context `{Collaborators}.

Implicit Types (w : World) (h : gmap ref SceneObject) (o : SceneObject).
Implicit Types (r self : ref).

(** ** Running the monad *)

Lemma run_bind {A B} (m : M A) (k : A -> M B) w :
  run (m ≫= k) w =
  match run m w with
  | (inl e, w') => (inl e, w')
  | (inr a, w') => run (k a) w'
  end.
Proof. reflexivity. Qed.

Lemma run_deref w r o :
  heap w !! r = Some o -> run (deref r) w = (inr o, w).
Proof. intros Hr. cbn. by rewrite Hr. Qed.

Lemma run_assign w r o f :
  heap w !! r = Some o ->
  run (assign r f) w = (inr tt, with_heap (<[r := f o]> (heap w)) w).
Proof. intros Hr. unfold assign. rewrite run_bind, (run_deref _ _ _ Hr). done. Qed.

(** ** The world transformation *)

Lemma frame_stack_loop_visits h p visited :
  visited_ancestors h p visited ->
  forall fuel acc, length visited < fuel ->
    frame_stack_loop fuel h p acc = Some (acc ++ collected_frames visited).
Proof.
  induction 1 as [|p po Hp Hroot|p po rest Hp Hroot Hrest IH];
    intros [|fuel] acc Hfuel; simpl in Hfuel; try lia; simpl.
  - by rewrite app_nil_r.
  - by rewrite Hp, Hroot, app_nil_r.
  - rewrite Hp, Hroot. unfold collected_frames. simpl.
    destruct (frame po) as [f|].
    + rewrite IH by lia. by rewrite <- app_assoc.
    + apply IH. lia.
Qed.

Lemma reduce_snoc {A} (f : A -> A -> A) (xs : list A) (y : A) :
  xs <> [] -> reduce f (xs ++ [y]) = (fun acc => f acc y) <$> reduce f xs.
Proof.
  destruct xs as [|x xs]; [done|]. intros _. simpl.
  by rewrite foldl_app.
Qed.

Lemma reduce_reverse_frames (f : Frame) (fs : list Frame) :
  reduce mul (reverse (Transformation_from_frame <$> (f :: fs)))
  = Some (outermost_first (f :: fs)).
Proof.
  revert f. induction fs as [|g fs IH]; intros f; [done|].
  change (outermost_first (f :: g :: fs))
    with (mul (outermost_first (g :: fs)) (Transformation_from_frame f)).
  rewrite fmap_cons, reverse_cons, reduce_snoc.
  - by rewrite IH.
  - rewrite fmap_cons, reverse_cons. by destruct (reverse _).
Qed.

(** C1. Reading [worldtransformation] returns, for enough fuel, the product
    the specification describes: the frames of the ancestors visited from
    the parent upward without the root, those without a frame skipped, each
    converted to a transformation, multiplied with the outermost first, and
    the object's own transformation multiplied on from the right when it is
    set; with no collected frame and no own transformation the result is the
    identity transformation. *)
Theorem worldtransformation_correct h o visited :
  visited_ancestors h (_parent o) visited ->
  (forall fuel, length visited < fuel ->
     worldtransformation fuel h o
     = Some (worldtransformation_spec visited (transformation o)))
  /\ (collected_frames visited = [] -> transformation o = None ->
      forall fuel, length visited < fuel ->
        worldtransformation fuel h o = Some Transformation_identity).
Proof.
  intros Hvisited.
  assert (Hrun : forall fuel, length visited < fuel ->
     worldtransformation fuel h o
     = Some (worldtransformation_spec visited (transformation o))).
  { intros fuel Hfuel. unfold worldtransformation, worldtransformation_spec.
    rewrite (frame_stack_loop_visits _ _ _ Hvisited) by done. simpl.
    destruct (collected_frames visited) as [|f fs] eqn:Hfs.
    - simpl. by destruct (transformation o).
    - rewrite fmap_cons.
      change (Transformation_from_frame f :: (Transformation_from_frame <$> fs))
        with (Transformation_from_frame <$> (f :: fs)).
      rewrite reduce_reverse_frames. simpl. by destruct (transformation o). }
  split; [done|].
  intros Hnone Hown fuel Hfuel. rewrite Hrun by done.
  unfold worldtransformation_spec. by rewrite Hnone, Hown.
Qed.

(** ** Construction and [add] *)

Lemma run_ret {A} (a : A) w : run (mret a) w = (inr a, w).
Proof. reflexivity. Qed.

Lemma run_raise {A} (e : exn) w : run (raise (A:=A) e) w = (inl e, w).
Proof. reflexivity. Qed.

Lemma fresh_ne w self o :
  heap w !! self = Some o -> fresh (dom (heap w)) <> self.
Proof.
  intros Hs Heq. apply (is_fresh (dom (heap w))). rewrite Heq.
  apply elem_of_dom. eauto.
Qed.

Lemma fresh_lookup w : heap w !! fresh (dom (heap w)) = None.
Proof. apply not_elem_of_dom, is_fresh. Qed.

Lemma run_SceneObject_new w i kwargs k :
  get_sceneobject_cls i (default None (kw_context kwargs)) = Some k ->
  exists child,
    run (SceneObject_new i kwargs) w
    = (inr (fresh (dom (heap w))),
       with_heap (<[fresh (dom (heap w)) := child]> (heap w)) w)
    /\ context child = default None (kw_context kwargs)
    /\ _parent child = None /\ _children child = []
    /\ _guids child = None /\ _contrastcolor child = None
    /\ color child = default default_color (kw_color kwargs).
Proof.
  intros Hcls. unfold SceneObject_new. rewrite Hcls.
  rewrite run_bind. cbn [run alloc].
  rewrite run_bind. erewrite run_deref by (cbn; apply lookup_insert_eq).
  rewrite run_bind. unfold color_set.
  erewrite run_assign by (cbn; apply lookup_insert_eq).
  rewrite run_ret. cbn [heap with_heap]. rewrite insert_insert_eq.
  eexists. split; [reflexivity|]. repeat split; reflexivity.
Qed.

Lemma run_SceneObject_new_unregistered w i kwargs :
  get_sceneobject_cls i (default None (kw_context kwargs)) = None ->
  run (SceneObject_new i kwargs) w
  = (inl (SceneObjectNotRegisteredError i (default None (kw_context kwargs))), w).
Proof. intros Hcls. unfold SceneObject_new. by rewrite Hcls. Qed.

(** [TreeNode_add] writes the parent link into the object found at [node]
    after [self] has received the child: that is [self] itself when an
    object is added to itself. *)
Lemma run_TreeNode_add w self node o n :
  heap w !! self = Some o -> heap w !! node = Some n ->
  run (TreeNode_add self node) w
  = (inr tt,
     with_heap
       (<[node := set_parent (Some self)
                    (if decide (self = node)
                     then set_children (_children o ++ [node]) o else n)]>
          (<[self := set_children (_children o ++ [node]) o]> (heap w))) w).
Proof.
  intros Hs Hn. unfold TreeNode_add.
  rewrite run_bind, (run_deref _ _ _ Hs).
  rewrite run_bind, (run_assign _ _ _ _ Hs).
  destruct (decide (self = node)) as [<-|Hne].
  - by erewrite run_assign by (cbn; apply lookup_insert_eq).
  - by erewrite run_assign by (cbn; rewrite lookup_insert_ne by done; exact Hn).
Qed.

(** A scene object passed to [add] is attached as it is; neither its
    context nor the keyword arguments are looked at. *)
Lemma add_sceneobject_attaches w self node o n kwargs :
  heap w !! self = Some o -> heap w !! node = Some n ->
  exists o' n',
    (run (add self (IsSceneObject node) kwargs) w).1 = inr node
    /\ heap (run (add self (IsSceneObject node) kwargs) w).2 !! self = Some o'
    /\ heap (run (add self (IsSceneObject node) kwargs) w).2 !! node = Some n'
    /\ node ∈ _children o'
    /\ _parent n' = Some self
    /\ context o' = context o
    /\ context n' = context n.
Proof.
  intros Hs Hn. unfold add. rewrite run_bind, run_ret, run_bind.
  rewrite (run_TreeNode_add w self node o n Hs Hn).
  rewrite run_ret. cbn [fst snd heap with_heap].
  destruct (decide (self = node)) as [<-|Hne].
  - rewrite lookup_insert_eq. assert (n = o) as -> by congruence.
    eexists _, _. repeat split; try reflexivity. cbn. set_solver.
  - rewrite lookup_insert_ne by done. rewrite !lookup_insert_eq.
    eexists _, _. repeat split; try reflexivity. cbn. set_solver.
Qed.

Lemma add_item_rejects w self o i kwargs c :
  heap w !! self = Some o -> kw_context kwargs = Some c -> c <> context o ->
  run (add self (IsItem i) kwargs) w
  = (inl (context_mismatch c (context o)), w).
Proof.
  intros Hs Hc Hne. unfold add.
  rewrite !run_bind, (run_deref _ _ _ Hs), Hc.
  rewrite run_bind. rewrite decide_True by done. by rewrite run_raise.
Qed.

(** What is left of the keyword arguments once a context that agrees with
    the parent's has been taken out. *)
Lemma run_checked_kwargs w o kwargs :
  kw_context kwargs = None \/ kw_context kwargs = Some (context o) ->
  exists kwargs',
    run (match kw_context kwargs with
         | Some c =>
           if decide (c <> context o) then raise (context_mismatch c (context o))
           else mret (with_context None kwargs)
         | None => mret kwargs
         end) w = (inr kwargs', w).
Proof.
  intros [-> | ->]; [by eexists|].
  rewrite decide_False by (intros Hc; by apply Hc). by eexists.
Qed.

Lemma add_item_unregistered w self o i kwargs :
  heap w !! self = Some o ->
  kw_context kwargs = None \/ kw_context kwargs = Some (context o) ->
  get_sceneobject_cls i (context o) = None ->
  run (add self (IsItem i) kwargs) w
  = (inl (SceneObjectNotRegisteredError i (context o)), w).
Proof.
  intros Hs Hctx Hcls.
  unfold add. rewrite run_bind, run_bind, (run_deref _ _ _ Hs), run_bind.
  destruct (run_checked_kwargs w o kwargs Hctx) as [kwargs' ->].
  by rewrite run_SceneObject_new_unregistered.
Qed.

Lemma add_item_attaches w self o i kwargs k :
  heap w !! self = Some o ->
  kw_context kwargs = None \/ kw_context kwargs = Some (context o) ->
  get_sceneobject_cls i (context o) = Some k ->
  exists r w' child,
    run (add self (IsItem i) kwargs) w = (inr r, w')
    /\ heap w !! r = None
    /\ heap w' !! r = Some child
    /\ context child = context o
    /\ _parent child = Some self
    /\ heap w' !! self = Some (set_children (_children o ++ [r]) o)
    /\ (forall r', r' <> r -> r' <> self -> heap w' !! r' = heap w !! r')
    /\ backend w' = backend w.
Proof.
  intros Hs Hctx Hcls.
  pose proof (fresh_ne _ _ _ Hs) as Hne.
  pose proof (fresh_lookup w) as Hfresh.
  set (r := fresh (dom (heap w))) in *.
  unfold add. rewrite run_bind, run_bind, (run_deref _ _ _ Hs), run_bind.
  destruct (run_checked_kwargs w o kwargs Hctx) as [kwargs' ->].
  destruct (run_SceneObject_new w i (with_context (Some (context o)) kwargs') k)
    as (child & -> & Hcc & Hcp & Hch & _); [done|].
  fold r. rewrite run_bind.
  erewrite (run_TreeNode_add _ self r o child);
    [| cbn; by rewrite lookup_insert_ne | cbn; apply lookup_insert_eq ].
  rewrite decide_False by done.
  rewrite run_ret. cbn [heap with_heap].
  eexists r, _, _. split; [reflexivity|]. cbn [heap backend with_heap].
  split; [done|]. split; [apply lookup_insert_eq|].
  split; [done|]. split; [done|].
  split; [rewrite lookup_insert_ne by done; apply lookup_insert_eq|].
  split; [|done].
  intros r' Hr Hself. by rewrite !lookup_insert_ne by done.
Qed.

(** C2 (amended). A child that [add] constructs from an item that is not
    itself a scene object has the context of its parent: a [context]
    keyword that differs from the parent's context is rejected, and whenever
    the call returns, the returned child is among the parent's children, has
    the parent as its parent and carries the parent's context; the call does
    return when the keyword is absent or agrees and a class is registered. *)
Theorem add_item_context_uniform w self o i kwargs :
  heap w !! self = Some o ->
  (forall c, kw_context kwargs = Some c -> c <> context o ->
     run (add self (IsItem i) kwargs) w
     = (inl (context_mismatch c (context o)), w))
  /\ (forall r w', run (add self (IsItem i) kwargs) w = (inr r, w') ->
      exists child parent',
        heap w' !! r = Some child /\ heap w' !! self = Some parent'
        /\ r ∈ _children parent' /\ _parent child = Some self
        /\ context child = context parent' /\ context parent' = context o)
  /\ (kw_context kwargs = None \/ kw_context kwargs = Some (context o) ->
      is_Some (get_sceneobject_cls i (context o)) ->
      exists r w', run (add self (IsItem i) kwargs) w = (inr r, w')).
Proof.
  intros Hs. split; [|split].
  - intros c Hc Hne. by apply add_item_rejects.
  - intros r w' Hrun.
    assert (Hctx : kw_context kwargs = None
                   \/ kw_context kwargs = Some (context o)).
    { destruct (kw_context kwargs) as [c|] eqn:Hc; [|by left].
      destruct (decide (c = context o)) as [->|Hne]; [by right|].
      rewrite (add_item_rejects _ _ _ _ _ _ Hs Hc Hne) in Hrun. done. }
    destruct (get_sceneobject_cls i (context o)) as [k|] eqn:Hcls.
    + destruct (add_item_attaches _ _ _ _ _ _ Hs Hctx Hcls)
        as (r0 & w0 & child & Hrun0 & _ & Hr & Hcc & Hcp & Hself & _).
      rewrite Hrun0 in Hrun. injection Hrun as <- <-.
      exists child, (set_children (_children o ++ [r0]) o).
      repeat split; try done.
      cbn [_children set_children]. apply elem_of_app. right. apply list_elem_of_singleton. done.
    + rewrite (add_item_unregistered _ _ _ _ _ Hs Hctx Hcls) in Hrun. done.
  - intros Hctx [k Hcls].
    destruct (add_item_attaches _ _ _ _ _ _ Hs Hctx Hcls)
      as (r & w' & _ & Hrun & _). eauto.
Qed.

(** C3 (amended). On a parent whose context is [Y], [add] of an item that
    is not itself a scene object with the keyword [context = X], [X]
    different from [Y], raises the exception whose message names both [X]
    and [Y], and leaves the world as it was; the parent's children in
    particular are the same. *)
Theorem add_item_context_mismatch w self o i kwargs (X Y : string) :
  heap w !! self = Some o ->
  context o = Some Y ->
  kw_context kwargs = Some (Some X) ->
  X <> Y ->
  (run (add self (IsItem i) kwargs) w).1
  = inl (Exception
           ("Child context should be the same as parent context: "
            +:+ X +:+ " != " +:+ Y))
  /\ (run (add self (IsItem i) kwargs) w).2 = w
  /\ _children <$> heap (run (add self (IsItem i) kwargs) w).2 !! self
     = Some (_children o).
Proof.
  intros Hs HY HX Hne.
  rewrite (add_item_rejects w self o i kwargs (Some X) Hs HX)
    by (rewrite HY; congruence).
  rewrite HY. cbn [fst snd]. by rewrite Hs.
Qed.

(** ** Colours *)

Lemma run_color_set w self o c :
  heap w !! self = Some o ->
  run (color_set self c) w
  = (inr tt,
     with_heap (<[self := set_contrastcolor None (set_color (Some c) o)]> (heap w)) w).
Proof. intros Hs. unfold color_set. by rewrite (run_assign _ _ _ _ Hs). Qed.

(** A stored contrast colour is returned as it is, and nothing is
    written. *)
Lemma contrastcolor_hit w self o v :
  heap w !! self = Some o -> _contrastcolor o = Some v ->
  run (contrastcolor self) w = (inr v, w).
Proof.
  intros Hs Hv. unfold contrastcolor.
  by rewrite run_bind, (run_deref _ _ _ Hs), Hv.
Qed.

(** Without a stored contrast colour the getter derives one from the
    colour and stores it. *)
Lemma contrastcolor_miss w self o :
  heap w !! self = Some o -> _contrastcolor o = None ->
  run (contrastcolor self) w
  = (let c := if is_light (color o) then darkened (color o) 50
              else lightened (color o) 50 in
     (inr c, with_heap (<[self := set_contrastcolor (Some c) o]> (heap w)) w)).
Proof.
  intros Hs Hv. unfold contrastcolor.
  rewrite run_bind, (run_deref _ _ _ Hs), Hv.
  by rewrite run_bind, (run_assign _ _ _ _ Hs).
Qed.

(** C4. After [color] is set to [c], the first read of [contrastcolor]
    derives the contrast colour of [c] and stores it; the second read
    returns the same value and writes nothing, as does every read that
    finds a stored value, whatever the colour is; setting [color] again, to
    [c'], empties the store, and the next read derives the contrast colour
    of [c']. *)
Theorem contrastcolor_memoized w self o c c' :
  heap w !! self = Some o ->
  let contrast (x : Color) :=
    if is_light x then darkened x 50 else lightened x 50 in
  let w1 := (run (color_set self c) w).2 in
  let read1 := run (contrastcolor self) w1 in
  let read2 := run (contrastcolor self) read1.2 in
  let w3 := (run (color_set self c') read2.2).2 in
  let read3 := run (contrastcolor self) w3 in
  read1.1 = inr (contrast c)
  /\ _contrastcolor <$> heap read1.2 !! self = Some (Some (contrast c))
  /\ read2 = (inr (contrast c), read1.2)
  /\ (forall w' o' v, heap w' !! self = Some o' -> _contrastcolor o' = Some v ->
        run (contrastcolor self) w' = (inr v, w'))
  /\ _contrastcolor <$> heap w3 !! self = Some None
  /\ read3.1 = inr (contrast c').
Proof.
  intros Hs contrast w1 read1 read2 w3 read3.
  assert (Hw1 : w1 = with_heap
            (<[self := set_contrastcolor None (set_color (Some c) o)]> (heap w)) w).
  { unfold w1. by rewrite (run_color_set _ _ _ _ Hs). }
  assert (Hread1 : read1 = (inr (contrast c),
            with_heap (<[self := set_contrastcolor (Some (contrast c))
                                   (set_contrastcolor None (set_color (Some c) o))]>
                         (heap w1)) w1)).
  { unfold read1.
    rewrite (contrastcolor_miss w1 self
               (set_contrastcolor None (set_color (Some c) o)));
      [reflexivity| |reflexivity].
    rewrite Hw1. cbn. apply lookup_insert_eq. }
  assert (Hread2 : read2 = (inr (contrast c), read1.2)).
  { unfold read2. rewrite Hread1. cbn [snd].
    eapply contrastcolor_hit; [cbn; apply lookup_insert_eq|reflexivity]. }
  assert (Hw3 : exists o2, heap w3 !! self = Some o2 /\ _contrastcolor o2 = None
                           /\ color o2 = c').
  { unfold w3. rewrite Hread2, Hread1. cbn [snd].
    erewrite run_color_set by (cbn; apply lookup_insert_eq).
    cbn [snd heap with_heap]. rewrite lookup_insert_eq. eauto. }
  split; [by rewrite Hread1|].
  split; [rewrite Hread1; cbn; by rewrite lookup_insert_eq|].
  split; [done|].
  split; [intros w' o' v; apply contrastcolor_hit|].
  destruct Hw3 as (o2 & Ho2 & Hnone & Hcol).
  split; [by rewrite Ho2; cbn; rewrite Hnone|].
  unfold read3. rewrite (contrastcolor_miss _ _ _ Ho2 Hnone). cbn [fst].
  by rewrite Hcol.
Qed.

(** X17. As long as the stored contrast colour is unset or is the one
    derived from the current colour, which is the state after construction
    and after every read that derived it, reading [contrastcolor] returns
    [color.darkened(50)] for a colour classified light and
    [color.lightened(50)] for one classified dark. *)
Theorem contrastcolor_derived w self o :
  heap w !! self = Some o ->
  _contrastcolor o = None
  \/ _contrastcolor o = Some (if is_light (color o) then darkened (color o) 50
                              else lightened (color o) 50) ->
  (is_light (color o) = true ->
     (run (contrastcolor self) w).1 = inr (darkened (color o) 50))
  /\ (is_light (color o) = false ->
     (run (contrastcolor self) w).1 = inr (lightened (color o) 50)).
Proof.
  intros Hs [Hnone | Hstored].
  - rewrite (contrastcolor_miss _ _ _ Hs Hnone). cbn [fst].
    split; intros ->; reflexivity.
  - rewrite (contrastcolor_hit _ _ _ _ Hs Hstored). cbn [fst].
    split; intros ->; reflexivity.
Qed.

(** ** Serialisation *)

(** [__from_data__] raises whatever it is given. *)
Lemma from_data_not_allowed {Data : Type} (c : Cls) (data : Data) w :
  run (__from_data__ c data) w
  = (inl (TypeError "Serialisation outside Scene not allowed."), w).
Proof. reflexivity. Qed.

(** ** [guids], [draw] and [clear] *)

Lemma guids_default o : guids o = default [] (_guids o).
Proof. unfold guids. by destruct (_guids o) as [[|g gs]|]. Qed.

Lemma run_clear w self o :
  heap w !! self = Some o ->
  run (clear self) w
  = (inr tt,
     mkWorld (<[self := set_guids None o]> (heap w))
             (context_clear (guids o) (backend w))).
Proof.
  intros Hs. unfold clear. rewrite run_bind, (run_deref _ _ _ Hs).
  rewrite run_bind. cbn [run backend_clear].
  by erewrite run_assign by (cbn; exact Hs).
Qed.

Lemma run_draw_concrete w self o :
  heap w !! self = Some o ->
  run (draw_concrete self) w
  = (inr tt,
     mkWorld (<[self := set_guids (Some (backend_draw (item o) (backend w)).1) o]>
                (heap w))
             (backend_draw (item o) (backend w)).2).
Proof.
  intros Hs. unfold draw_concrete. rewrite run_bind, (run_deref _ _ _ Hs).
  rewrite run_bind. cbn [run].
  destruct (backend_draw (item o) (backend w)) as [gs b].
  by erewrite run_assign by (cbn; exact Hs).
Qed.

(** C7. Two calls of [clear] in a row both return; [guids] is empty after
    the first and after the second; the second leaves every scene object as
    the first left it, and hands the backend an empty list of handles. *)
Theorem clear_idempotent w self o :
  heap w !! self = Some o ->
  let once := run (clear self) w in
  let twice := run (clear self) once.2 in
  once.1 = inr tt /\ twice.1 = inr tt
  /\ guids <$> heap once.2 !! self = Some []
  /\ guids <$> heap twice.2 !! self = Some []
  /\ heap twice.2 = heap once.2
  /\ backend twice.2 = context_clear [] (backend once.2).
Proof.
  intros Hs once twice.
  assert (Honce : once = (inr tt,
            mkWorld (<[self := set_guids None o]> (heap w))
                    (context_clear (guids o) (backend w)))).
  { by apply run_clear. }
  assert (Htwice : twice = (inr tt,
            mkWorld (<[self := set_guids None (set_guids None o)]> (heap once.2))
                    (context_clear [] (backend once.2)))).
  { unfold twice. rewrite (run_clear once.2 self (set_guids None o));
      [reflexivity|].
    rewrite Honce. cbn. apply lookup_insert_eq. }
  rewrite Htwice, Honce. cbn [fst snd heap backend].
  rewrite insert_insert_eq, !lookup_insert_eq. done.
Qed.

(** C8. [add(child)] followed by [clear()] on the parent: both return, the
    child is among the parent's children after [add] and still after
    [clear], with its parent link in place; [clear] replaces the parent
    object by itself with [_guids] reset, so its children are the same, and
    touches no other object. *)
Theorem clear_keeps_children w self child o c kwargs :
  heap w !! self = Some o ->
  heap w !! child = Some c ->
  let added := run (add self (IsSceneObject child) kwargs) w in
  let cleared := run (clear self) added.2 in
  added.1 = inr child /\ cleared.1 = inr tt
  /\ (exists o1 o2,
        heap added.2 !! self = Some o1 /\ child ∈ _children o1
        /\ heap cleared.2 !! self = Some o2 /\ child ∈ _children o2
        /\ o2 = set_guids None o1 /\ _children o2 = _children o1)
  /\ (forall r, r <> self -> heap cleared.2 !! r = heap added.2 !! r)
  /\ _parent <$> heap cleared.2 !! child = Some (Some self).
Proof.
  intros Hs Hc added cleared.
  destruct (add_sceneobject_attaches w self child o c kwargs Hs Hc)
    as (o1 & c1 & Hret & Hself & Hchild & Hin & Hparent & _).
  fold added in Hret, Hself, Hchild.
  assert (Hcleared : cleared = (inr tt,
            mkWorld (<[self := set_guids None o1]> (heap added.2))
                    (context_clear (guids o1) (backend added.2)))).
  { by apply run_clear. }
  rewrite Hcleared. cbn [fst snd heap].
  split; [done|]. split; [done|]. split.
  { exists o1, (set_guids None o1). rewrite lookup_insert_eq. done. }
  split.
  { intros r Hr. by rewrite lookup_insert_ne. }
  destruct (decide (self = child)) as [<-|Hne].
  - rewrite lookup_insert_eq. cbn.
    rewrite Hself in Hchild. injection Hchild as <-. by rewrite Hparent.
  - rewrite lookup_insert_ne by done. by rewrite Hchild; cbn; rewrite Hparent.
Qed.

(** C10. [guids] is a total function into lists: it is [_guids] with the
    unset state read as the empty list.  It is empty on a scene object that
    has just been constructed and after [clear], and after the [draw] of a
    concrete class it is the list of handles that the backend returned. *)
Theorem guids_is_list w self o :
  heap w !! self = Some o ->
  guids o = default [] (_guids o)
  /\ (forall i kwargs k,
        get_sceneobject_cls i (default None (kw_context kwargs)) = Some k ->
        exists r,
          (run (SceneObject_new i kwargs) w).1 = inr r
          /\ guids <$> heap (run (SceneObject_new i kwargs) w).2 !! r = Some [])
  /\ guids <$> heap (run (clear self) w).2 !! self = Some []
  /\ guids <$> heap (run (draw_concrete self) w).2 !! self
     = Some (backend_draw (item o) (backend w)).1.
Proof.
  intros Hs. split; [apply guids_default|]. split; [|split].
  - intros i kwargs k Hcls.
    destruct (run_SceneObject_new w i kwargs k Hcls)
      as (child & -> & _ & _ & _ & Hg & _).
    eexists. split; [reflexivity|]. cbn [snd heap with_heap].
    rewrite lookup_insert_eq.
    change (Some (guids child) = Some []). by rewrite guids_default, Hg.
  - rewrite (run_clear _ _ _ Hs). cbn [snd heap].
    by rewrite lookup_insert_eq.
  - rewrite (run_draw_concrete _ _ _ Hs). cbn [snd heap].
    rewrite lookup_insert_eq.
    change (Some (guids (set_guids (Some (backend_draw (item o) (backend w)).1) o))
            = Some (backend_draw (item o) (backend w)).1).
    by rewrite guids_default.
Qed.

End SceneObjectFacts.

(** ** Concrete scenes *)

Section Scenes.

#[local] Existing Instance Toy.toy.

Import Toy.

(** C1, witness: in the chain of four, the walk from object 3 visits
    objects 2 and 1 and stops below the root; the result is the frame of 1
    times the frame of 2 times the transformation of 3. *)
Lemma worldtransformation_correct_witness :
  visited_ancestors chain4 (_parent obj_c) [obj_b; obj_a]
  /\ worldtransformation 3 chain4 obj_c = Some (6, 35)%Z.
Proof.
  assert (Hvisited : visited_ancestors chain4 (_parent obj_c) [obj_b; obj_a]).
  { apply (visited_above chain4 2 obj_b); [reflexivity|reflexivity|].
    apply (visited_above chain4 1 obj_a); [reflexivity|reflexivity|].
    apply (visited_root chain4 0 obj_root); reflexivity. }
  split; [exact Hvisited|].
  destruct (worldtransformation_correct chain4 obj_c _ Hvisited) as [Hrun _].
  rewrite Hrun; [reflexivity|simpl; lia].
Defined.

(** C2, counterexample: a scene object made for Blender is added under a
    parent made for Rhino; [add] returns it, and afterwards it is a child of
    the parent with a context that differs from the parent's. *)
Lemma add_sceneobject_context_differs :
  let w := world_of rhino_blender in
  let result := run (add 0 (IsSceneObject 1) no_kwargs) w in
  result.1 = inr 1
  /\ _children <$> heap result.2 !! 0 = Some [1]
  /\ _parent <$> heap result.2 !! 1 = Some (Some 0)
  /\ context <$> heap result.2 !! 0 = Some (Some "Rhino"%string)
  /\ context <$> heap result.2 !! 1 = Some (Some "Blender"%string).
Proof. vm_compute. repeat split. Qed.

(** C2, witness: an item added under the Rhino parent. *)
Lemma add_item_context_uniform_witness :
  heap (world_of rhino_blender) !! 0 = Some obj_p
  /\ exists r w',
       run (add 0 (IsItem "mesh"%string) no_kwargs) (world_of rhino_blender)
       = (inr r, w').
Proof.
  assert (Hs : heap (world_of rhino_blender) !! 0 = Some obj_p) by reflexivity.
  split; [exact Hs|].
  destruct (add_item_context_uniform _ 0 obj_p "mesh"%string no_kwargs Hs)
    as (_ & _ & Hreturns).
  apply Hreturns; [left; reflexivity|eexists; reflexivity].
Defined.

(** C3, counterexample: the parent's context is Rhino and [add] is called
    with [context = "Blender"], but on an argument that is a scene object
    already: nothing is raised, and the parent has a new child. *)
Lemma add_sceneobject_ignores_context_keyword :
  let w := world_of rhino_blender in
  let kwargs := with_context (Some (Some "Blender"%string)) no_kwargs in
  let result := run (add 0 (IsSceneObject 1) kwargs) w in
  context <$> heap w !! 0 = Some (Some "Rhino"%string)
  /\ result.1 = inr 1
  /\ _children <$> heap w !! 0 = Some []
  /\ _children <$> heap result.2 !! 0 = Some [1].
Proof. vm_compute. repeat split. Qed.

(** C3, witness: the same call on an item is rejected. *)
Lemma add_item_context_mismatch_witness :
  let kwargs := with_context (Some (Some "Blender"%string)) no_kwargs in
  heap (world_of rhino_blender) !! 0 = Some obj_p
  /\ context obj_p = Some "Rhino"%string
  /\ kw_context kwargs = Some (Some "Blender"%string)
  /\ "Blender"%string <> "Rhino"%string
  /\ (run (add 0 (IsItem "mesh"%string) kwargs) (world_of rhino_blender)).1
     = inl (Exception
        "Child context should be the same as parent context: Blender != Rhino").
Proof.
  intros kwargs.
  assert (Hs : heap (world_of rhino_blender) !! 0 = Some obj_p) by reflexivity.
  assert (Hne : "Blender"%string <> "Rhino"%string) by discriminate.
  repeat (split; [done|]).
  apply (add_item_context_mismatch _ 0 obj_p "mesh"%string kwargs
           "Blender"%string "Rhino"%string Hs eq_refl eq_refl Hne).
Defined.

(** C4, witness: the white object is painted navy, read twice, painted
    white again and read once more. *)
Lemma contrastcolor_memoized_witness :
  heap (world_of white_scene) !! 0 = Some obj_white
  /\ (run (contrastcolor 0)
        (run (color_set 0 navy) (world_of white_scene)).2).1
     = inr (127, 127, 191)%Z.
Proof.
  assert (Hs : heap (world_of white_scene) !! 0 = Some obj_white) by reflexivity.
  split; [exact Hs|].
  destruct (contrastcolor_memoized _ 0 obj_white navy white Hs) as [Hread _].
  exact Hread.
Defined.

(** C5. The input on which the code departs from the claim, and from the
    class docstring that calls [contrastcolor] read-only and a 50% darker or
    lighter version of the colour: the colour of the object is white, which
    is light; [contrastcolor] is assigned red through its setter; reading it
    then gives red, and not the darkened white [(127, 127, 127)]. *)
Lemma contrastcolor_assigned_not_derived :
  let w := (run (contrastcolor_set 0 red) (world_of white_scene)).2 in
  color <$> heap w !! 0 = Some white
  /\ is_light white = true
  /\ (run (contrastcolor 0) w).1 = inr red
  /\ darkened white 50 = (127, 127, 127)%Z
  /\ red <> darkened white 50.
Proof. vm_compute. repeat split. discriminate. Qed.

(** X17, witness: with nothing stored the white object gets the darkened
    white. *)
Lemma contrastcolor_derived_witness :
  heap (world_of white_scene) !! 0 = Some obj_white
  /\ _contrastcolor obj_white = None
  /\ (run (contrastcolor 0) (world_of white_scene)).1 = inr (127, 127, 127)%Z.
Proof.
  assert (Hs : heap (world_of white_scene) !! 0 = Some obj_white) by reflexivity.
  split; [exact Hs|]. split; [reflexivity|].
  destruct (contrastcolor_derived _ 0 obj_white Hs (or_introl eq_refl))
    as [Hlight _].
  apply Hlight. reflexivity.
Defined.

(** C7, witness: object 3 of the chain is drawn and then cleared twice. *)
Lemma clear_idempotent_witness :
  let w := (run (draw_concrete 3) (world_of chain4)).2 in
  let once := run (clear 3) w in
  let twice := run (clear 3) once.2 in
  heap w !! 3 = Some (set_guids (Some [0; 1]) obj_c)
  /\ guids <$> heap w !! 3 = Some [0; 1]
  /\ guids <$> heap twice.2 !! 3 = Some []
  /\ heap twice.2 = heap once.2.
Proof.
  intros w once twice.
  assert (Hs : heap w !! 3 = Some (set_guids (Some [0; 1]) obj_c)) by reflexivity.
  split; [exact Hs|]. split; [reflexivity|].
  destruct (clear_idempotent w 3 _ Hs) as (_ & _ & _ & Hempty & Hsame & _).
  split; [exact Hempty|exact Hsame].
Defined.

(** C8, witness: object 1 is added under object 0, which is then
    cleared. *)
Lemma clear_keeps_children_witness :
  let w := world_of rhino_blender in
  let added := run (add 0 (IsSceneObject 1) no_kwargs) w in
  let cleared := run (clear 0) added.2 in
  heap w !! 0 = Some obj_p /\ heap w !! 1 = Some obj_s
  /\ _children <$> heap cleared.2 !! 0 = Some [1]
  /\ _parent <$> heap cleared.2 !! 1 = Some (Some 0).
Proof.
  intros w added cleared.
  assert (Hs : heap w !! 0 = Some obj_p) by reflexivity.
  assert (Hc : heap w !! 1 = Some obj_s) by reflexivity.
  split; [exact Hs|]. split; [exact Hc|]. split; [reflexivity|].
  destruct (clear_keeps_children w 0 1 obj_p obj_s no_kwargs Hs Hc)
    as (_ & _ & _ & _ & Hparent).
  exact Hparent.
Defined.

(** C10, witness: object 3 of the chain before and after [draw]. *)
Lemma guids_is_list_witness :
  let w := world_of chain4 in
  heap w !! 3 = Some obj_c
  /\ guids obj_c = []
  /\ guids <$> heap (run (draw_concrete 3) w).2 !! 3 = Some [0; 1].
Proof.
  intros w.
  assert (Hs : heap w !! 3 = Some obj_c) by reflexivity.
  split; [exact Hs|].
  destruct (guids_is_list w 3 obj_c Hs) as (Hdefault & _ & _ & Hdrawn).
  split; [exact Hdefault|exact Hdrawn].
Defined.

End Scenes.

(** * Further properties *)

Section WorldTransformationFacts.

Context `{Collaborators}.

Implicit Types (w : World) (h : gmap ref SceneObject) (o : SceneObject).
Implicit Types (r self : ref).

(** An update that keeps the parent link and the frame of an object is
    not seen by the walk. *)
Lemma frame_stack_loop_insert_same h r ro ro' :
  h !! r = Some ro -> _parent ro' = _parent ro ->
  frame ro' = frame ro \/ is_root ro = true ->
  forall fuel p acc,
    frame_stack_loop fuel (<[r := ro']> h) p acc = frame_stack_loop fuel h p acc.
Proof.
  intros Hr Hparent Hframe.
  assert (Hroot : is_root ro' = is_root ro) by (unfold is_root; by rewrite Hparent).
  induction fuel as [|fuel IH]; intros p acc; [done|].
  simpl. destruct p as [p|]; [|done].
  destruct (decide (r = p)) as [<-|Hne].
  - rewrite lookup_insert_eq, Hr, Hroot.
    destruct (is_root ro) eqn:Hro; [done|].
    destruct Hframe as [-> | ?]; [|done]. rewrite Hparent. apply IH.
  - rewrite lookup_insert_ne by done.
    destruct (h !! p) as [po|]; [|done].
    destruct (is_root po); [done|]. apply IH.
Qed.

(** An update of an object that the walk does not visit is not seen
    either, as long as the parent link is kept. *)
Lemma frame_stack_loop_insert_off_path h r ro ro' p rs :
  h !! r = Some ro -> _parent ro' = _parent ro ->
  visited_refs h p rs -> r ∉ rs ->
  forall fuel acc,
    frame_stack_loop fuel (<[r := ro']> h) p acc = frame_stack_loop fuel h p acc.
Proof.
  intros Hr Hparent Hwalk.
  assert (Hroot : is_root ro' = is_root ro) by (unfold is_root; by rewrite Hparent).
  induction Hwalk as [|p po Hp Hpo|p po rest Hp Hpo Hrest IH];
    intros Hnotin [|fuel] acc; try done; simpl.
  - destruct (decide (r = p)) as [<-|Hne].
    + assert (Heq : po = ro) by congruence. subst po.
      by rewrite lookup_insert_eq, Hroot, Hr, Hpo.
    + rewrite lookup_insert_ne by done. by rewrite Hp, Hpo.
  - assert (r <> p) by (intros ->; apply Hnotin; left).
    rewrite lookup_insert_ne by done. rewrite Hp, Hpo.
    apply IH. intros Hin. apply Hnotin. by right.
Qed.

(** A new object is not on the walk of any other. *)
Lemma frame_stack_loop_insert_fresh h r x p rs :
  h !! r = None -> visited_refs h p rs ->
  forall fuel acc,
    frame_stack_loop fuel (<[r := x]> h) p acc = frame_stack_loop fuel h p acc.
Proof.
  intros Hr Hwalk.
  induction Hwalk as [|p po Hp Hpo|p po rest Hp Hpo Hrest IH];
    intros [|fuel] acc; try done; simpl.
  - assert (r <> p) by congruence.
    rewrite lookup_insert_ne by done. by rewrite Hp, Hpo.
  - assert (r <> p) by congruence.
    rewrite lookup_insert_ne by done. rewrite Hp, Hpo. apply IH.
Qed.

Lemma worldtransformation_loop_ext fuel h h' o o' :
  _parent o' = _parent o -> transformation o' = transformation o ->
  (forall acc, frame_stack_loop fuel h' (_parent o) acc
               = frame_stack_loop fuel h (_parent o) acc) ->
  worldtransformation fuel h' o' = worldtransformation fuel h o.
Proof.
  intros Hp Ht Hloop. unfold worldtransformation.
  by rewrite Hp, Ht, Hloop.
Qed.

Lemma run_frame_set w r ro f :
  heap w !! r = Some ro ->
  run (frame_set r f) w
  = (inr tt, with_heap (<[r := set_frame f ro]> (heap w)) w).
Proof. intros Hr. unfold frame_set. by rewrite (run_assign _ _ _ _ Hr). Qed.

Lemma run_transformation_set w r ro t :
  heap w !! r = Some ro ->
  run (transformation_set r t) w
  = (inr tt, with_heap (<[r := set_transformation t ro]> (heap w)) w).
Proof. intros Hr. unfold transformation_set. by rewrite (run_assign _ _ _ _ Hr). Qed.

(** X1. The frame of a root never enters a world transformation: after the
    frame of an object without a parent is set, the frame reads back as set
    and every scene object, the root included, has the world transformation
    it had before. *)
Theorem root_frame_ignored w r ro f :
  heap w !! r = Some ro ->
  is_root ro = true ->
  let w' := (run (frame_set r f) w).2 in
  frame <$> heap w' !! r = Some f
  /\ forall r' o o' fuel,
       heap w !! r' = Some o -> heap w' !! r' = Some o' ->
       worldtransformation fuel (heap w') o'
       = worldtransformation fuel (heap w) o.
Proof.
  intros Hr Hroot w'. unfold w'. rewrite (run_frame_set _ _ _ _ Hr).
  cbn [snd heap with_heap]. split; [by rewrite lookup_insert_eq|].
  intros r' o o' fuel Ho Ho'.
  apply worldtransformation_loop_ext.
  - destruct (decide (r = r')) as [<-|Hne].
    + rewrite lookup_insert_eq in Ho'. by simplify_eq.
    + rewrite lookup_insert_ne in Ho' by done. by simplify_eq.
  - destruct (decide (r = r')) as [<-|Hne].
    + rewrite lookup_insert_eq in Ho'. by simplify_eq.
    + rewrite lookup_insert_ne in Ho' by done. by simplify_eq.
  - intros acc. apply (frame_stack_loop_insert_same _ _ ro); auto.
Qed.

(** X2. The transformation of an object enters no world transformation
    but its own: after the transformation of [r] is set, every other scene
    object is the same object with the same world transformation, also
    those below [r], and the world transformation of [r] is computed from
    the same frames as before. *)
Theorem transformation_set_local w r ro t :
  heap w !! r = Some ro ->
  let w' := (run (transformation_set r t) w).2 in
  heap w' !! r = Some (set_transformation t ro)
  /\ (forall fuel,
        worldtransformation fuel (heap w') (set_transformation t ro)
        = worldtransformation fuel (heap w) (set_transformation t ro))
  /\ forall r' o' fuel,
       r' <> r -> heap w !! r' = Some o' ->
       heap w' !! r' = Some o'
       /\ worldtransformation fuel (heap w') o'
          = worldtransformation fuel (heap w) o'.
Proof.
  intros Hr w'. unfold w'. rewrite (run_transformation_set _ _ _ _ Hr).
  cbn [snd heap with_heap].
  assert (Hloop : forall fuel p acc,
    frame_stack_loop fuel (<[r := set_transformation t ro]> (heap w)) p acc
    = frame_stack_loop fuel (heap w) p acc).
  { apply (frame_stack_loop_insert_same _ _ ro); auto. }
  split; [by rewrite lookup_insert_eq|]. split.
  - intros fuel. by apply worldtransformation_loop_ext.
  - intros r' o' fuel Hne Ho'. split; [by rewrite lookup_insert_ne|].
    by apply worldtransformation_loop_ext.
Qed.

(** X3. The frame of an object enters the world transformation of its
    descendants only: after the frame of [self] is set, every scene object
    whose walk to the root does not pass through [self] has the world
    transformation it had before; that is so for [self] itself, unless it
    is its own ancestor. *)
Theorem frame_set_off_path w self o f :
  heap w !! self = Some o ->
  let w' := (run (frame_set self f) w).2 in
  forall r' o1 o2 rs fuel,
    heap w !! r' = Some o1 -> heap w' !! r' = Some o2 ->
    visited_refs (heap w) (_parent o1) rs -> self ∉ rs ->
    worldtransformation fuel (heap w') o2
    = worldtransformation fuel (heap w) o1.
Proof.
  intros Hs w'. unfold w'. rewrite (run_frame_set _ _ _ _ Hs).
  cbn [snd heap with_heap].
  intros r' o1 o2 rs fuel Ho1 Ho2 Hwalk Hnotin.
  assert (Hsame : _parent o2 = _parent o1
                  /\ transformation o2 = transformation o1).
  { destruct (decide (self = r')) as [<-|Hne].
    - rewrite lookup_insert_eq in Ho2. by simplify_eq.
    - rewrite lookup_insert_ne in Ho2 by done. by simplify_eq. }
  destruct Hsame as [Hp Ht].
  apply worldtransformation_loop_ext; [done|done|].
  intros acc. by apply (frame_stack_loop_insert_off_path _ _ o _ _ rs).
Qed.

End WorldTransformationFacts.

Section AddFacts.

Context `{Collaborators}.

Implicit Types (w : World) (h : gmap ref SceneObject) (o : SceneObject).
Implicit Types (r self : ref).

(** The context check of [add] passes the keyword arguments on with the
    [context] keyword taken out. *)
Lemma run_checked_kwargs_fields w o kwargs :
  kw_context kwargs = None \/ kw_context kwargs = Some (context o) ->
  run (match kw_context kwargs with
       | Some c =>
         if decide (c <> context o) then raise (context_mismatch c (context o))
         else mret (with_context None kwargs)
       | None => mret kwargs
       end) w = (inr (with_context None kwargs), w).
Proof.
  intros [Hc | Hc]; rewrite Hc.
  - destruct kwargs; cbn in *. by subst.
  - rewrite decide_False by (intros Hne; by apply Hne). done.
Qed.

(** X4. The context check comes first and construction second, and the
    tree is touched last: a [context] keyword that differs from the
    parent's is reported whether or not a class is registered for the item;
    with an absent or agreeing keyword and no class registered, the
    registry's error is raised; in both cases the world is left as it
    was. *)
Theorem add_item_errors w self o i kwargs :
  heap w !! self = Some o ->
  (forall c, kw_context kwargs = Some c -> c <> context o ->
     run (add self (IsItem i) kwargs) w
     = (inl (context_mismatch c (context o)), w))
  /\ (kw_context kwargs = None \/ kw_context kwargs = Some (context o) ->
      get_sceneobject_cls i (context o) = None ->
      run (add self (IsItem i) kwargs) w
      = (inl (SceneObjectNotRegisteredError i (context o)), w)).
Proof.
  intros Hs. split.
  - intros c Hc Hne. unfold add.
    rewrite !run_bind, (run_deref _ _ _ Hs), Hc.
    rewrite run_bind. by rewrite decide_True by done.
  - intros Hctx Hcls. unfold add.
    rewrite run_bind, run_bind, (run_deref _ _ _ Hs), run_bind.
    rewrite (run_checked_kwargs_fields _ _ _ Hctx).
    rewrite run_SceneObject_new_unregistered by done. done.
Qed.

(** X5. A [context] keyword that agrees with the parent's context makes
    no difference: the call behaves as the call without the keyword. *)
Theorem add_item_agreeing_context w self o i kwargs :
  heap w !! self = Some o ->
  run (add self (IsItem i) (with_context (Some (context o)) kwargs)) w
  = run (add self (IsItem i) (with_context None kwargs)) w.
Proof.
  intros Hs. unfold add.
  rewrite !run_bind, (run_deref _ _ _ Hs).
  cbn [kw_context with_context].
  rewrite decide_False by (intros Hne; by apply Hne).
  reflexivity.
Qed.

(** With the context check passed, [add] of an item runs the constructor
    with the parent's context and hands the new object to the branch for
    scene objects. *)
Lemma run_add_item w self o i kwargs :
  heap w !! self = Some o ->
  kw_context kwargs = None \/ kw_context kwargs = Some (context o) ->
  run (add self (IsItem i) kwargs) w
  = run (sceneobject ←
           SceneObject_new i (with_context (Some (context o)) kwargs);
         add self (IsSceneObject sceneobject) no_kwargs) w.
Proof.
  intros Hs Hctx. unfold add.
  rewrite run_bind, run_bind, (run_deref _ _ _ Hs), run_bind.
  rewrite (run_checked_kwargs_fields _ _ _ Hctx).
  rewrite (run_bind (SceneObject_new _ _)).
  assert (Hkw : with_context (Some (context o)) (with_context None kwargs)
                = with_context (Some (context o)) kwargs) by done.
  rewrite Hkw.
  destruct (run (SceneObject_new i (with_context (Some (context o)) kwargs)) w)
    as [[e|r] w1]; [done|].
  by rewrite !run_bind, run_ret.
Qed.

(** X6. [add] of an item is construction followed by [add] of the
    constructed scene object: with an absent or agreeing [context] keyword,
    [add(item, **kwargs)] leaves the same result and the same world as
    [add(SceneObject(item, context=self.context, **kwargs))], also when the
    construction raises. *)
Theorem add_item_is_construct_then_add w self o i kwargs :
  heap w !! self = Some o ->
  kw_context kwargs = None \/ kw_context kwargs = Some (context o) ->
  run (add self (IsItem i) kwargs) w
  = run (sceneobject ←
           SceneObject_new i (with_context (Some (context o)) kwargs);
         add self (IsSceneObject sceneobject) no_kwargs) w.
Proof. apply run_add_item. Qed.

End AddFacts.

Section ConstructionFacts.

Context `{Collaborators}.

Implicit Types (w : World) (h : gmap ref SceneObject) (o : SceneObject).
Implicit Types (r self : ref).

(** The object that [__init__] leaves behind. *)
Lemma run_SceneObject_new_record w i kwargs k :
  get_sceneobject_cls i (default None (kw_context kwargs)) = Some k ->
  run (SceneObject_new i kwargs) w
  = (inr (fresh (dom (heap w))),
     with_heap
       (<[fresh (dom (heap w)) :=
            {| cls := k;
               name := name_or (kw_name kwargs) i;
               _parent := None;
               _children := [];
               context := default None (kw_context kwargs);
               _item := i;
               _guids := None;
               _node := None;
               _frame := kw_frame kwargs;
               _transformation := kw_transformation kwargs;
               _contrastcolor := None;
               _color := Some (default default_color (kw_color kwargs));
               opacity := default float_one (kw_opacity kwargs);
               show := default true (kw_show kwargs) |}]> (heap w)) w).
Proof.
  intros Hcls. unfold SceneObject_new. rewrite Hcls.
  rewrite run_bind. cbn [run alloc].
  rewrite run_bind. erewrite run_deref by (cbn; apply lookup_insert_eq).
  rewrite run_bind. unfold color_set.
  erewrite run_assign by (cbn; apply lookup_insert_eq).
  rewrite run_ret. cbn [heap with_heap]. rewrite insert_insert_eq.
  unfold set_contrastcolor, set_color, color. cbn.
  by destruct (kw_color kwargs).
Qed.

(** X7. The constructor: when no class is registered for the item and the
    context, it raises and allocates nothing; otherwise it returns a
    reference that was not in use, to an object of the registered class
    that has no parent, no children, no handles and no stored contrast
    colour, whose name is the [name] keyword unless that is absent or the
    empty string, in which case it is the name of the item, whose colour,
    opacity and visibility are the keywords or else the defaults, and whose
    frame, transformation and context are the keywords; no other object is
    touched. *)
Theorem SceneObject_new_attributes w i kwargs :
  let ctx := default None (kw_context kwargs) in
  let result := run (SceneObject_new i kwargs) w in
  (get_sceneobject_cls i ctx = None ->
     result = (inl (SceneObjectNotRegisteredError i ctx), w))
  /\ (forall k, get_sceneobject_cls i ctx = Some k ->
      exists r c,
        result = (inr r, with_heap (<[r := c]> (heap w)) w)
        /\ heap w !! r = None
        /\ cls c = k /\ item c = i /\ context c = ctx
        /\ name c = match kw_name kwargs with
                    | Some s => if decide (s = ""%string) then item_name i else s
                    | None => item_name i
                    end
        /\ frame c = kw_frame kwargs
        /\ transformation c = kw_transformation kwargs
        /\ color c = default default_color (kw_color kwargs)
        /\ opacity c = default float_one (kw_opacity kwargs)
        /\ show c = default true (kw_show kwargs)
        /\ guids c = [] /\ _children c = [] /\ _parent c = None
        /\ _contrastcolor c = None).
Proof.
  intros ctx result. split.
  - intros Hcls. by apply run_SceneObject_new_unregistered.
  - intros k Hcls. unfold result.
    rewrite (run_SceneObject_new_record _ _ _ _ Hcls).
    eexists _, _. split; [reflexivity|].
    split; [apply fresh_lookup|].
    repeat split; try reflexivity.
    cbn. destruct (kw_name kwargs) as [[|a s]|]; [done| |done].
    by rewrite decide_False.
Qed.

(** A heap that keeps every object of [h], with its parent link and its
    frame, is walked as [h] is. *)
Lemma frame_stack_loop_agree h h' p visited :
  visited_ancestors h p visited ->
  (forall q po, h !! q = Some po ->
     exists po', h' !! q = Some po'
                 /\ _parent po' = _parent po /\ frame po' = frame po) ->
  forall fuel acc, length visited < fuel ->
    frame_stack_loop fuel h' p acc = Some (acc ++ collected_frames visited).
Proof.
  intros Hvisited Hkeep.
  induction Hvisited as [|p po Hp Hroot|p po rest Hp Hroot Hrest IH];
    intros [|fuel] acc Hfuel; simpl in Hfuel; try lia; simpl.
  - by rewrite app_nil_r.
  - destruct (Hkeep _ _ Hp) as (po' & -> & Hparent & _).
    unfold is_root in *. rewrite Hparent, Hroot. by rewrite app_nil_r.
  - destruct (Hkeep _ _ Hp) as (po' & -> & Hparent & Hframe).
    assert (is_root po' = false) as -> by (unfold is_root in *; by rewrite Hparent).
    rewrite Hparent, Hframe. unfold collected_frames. simpl.
    destruct (frame po) as [f|].
    + rewrite IH by lia. by rewrite <- app_assoc.
    + apply IH. lia.
Qed.

(** X8. The world transformation of a child that [add] has just
    constructed: it is the product of the frames collected from the parent
    upward, the parent included unless it is the root, times the
    [transformation] keyword when one was given; the [frame] keyword plays
    no part in it. *)
Theorem added_child_worldtransformation w self o i kwargs k visited :
  heap w !! self = Some o ->
  kw_context kwargs = None \/ kw_context kwargs = Some (context o) ->
  get_sceneobject_cls i (context o) = Some k ->
  visited_ancestors (heap w) (Some self) visited ->
  let result := run (add self (IsItem i) kwargs) w in
  exists r c,
    result.1 = inr r /\ heap result.2 !! r = Some c
    /\ frame c = kw_frame kwargs
    /\ forall fuel, length visited < fuel ->
         worldtransformation fuel (heap result.2) c
         = Some (worldtransformation_spec visited (kw_transformation kwargs)).
Proof.
  intros Hs Hctx Hcls Hvisited result. unfold result.
  pose proof (fresh_ne _ _ _ Hs) as Hne.
  pose proof (fresh_lookup w) as Hfresh.
  rewrite (run_add_item _ _ _ _ _ Hs Hctx).
  rewrite run_bind.
  rewrite (run_SceneObject_new_record _ _ _ k) by done.
  set (r := fresh (dom (heap w))) in *.
  match goal with |- context [<[r := ?x]> (heap w)] => set (child := x) end.
  unfold add. rewrite run_bind, run_ret, run_bind.
  rewrite (run_TreeNode_add _ self r o child);
    [| cbn; by rewrite lookup_insert_ne | cbn; apply lookup_insert_eq ].
  rewrite decide_False by done. rewrite run_ret.
  cbn [fst snd heap with_heap].
  exists r, (set_parent (Some self) child).
  split; [done|]. split; [apply lookup_insert_eq|]. split; [done|].
  intros fuel Hfuel. unfold worldtransformation.
  cbn [_parent set_parent].
  rewrite (frame_stack_loop_agree (heap w) _ _ visited Hvisited); [|
    |done].
  - unfold worldtransformation_spec. simpl.
    destruct (collected_frames visited) as [|f fs] eqn:Hfs.
    + simpl. by destruct (kw_transformation kwargs).
    + rewrite fmap_cons.
      change (Transformation_from_frame f :: (Transformation_from_frame <$> fs))
        with (Transformation_from_frame <$> (f :: fs)).
      rewrite reduce_reverse_frames. simpl.
      by destruct (kw_transformation kwargs).
  - intros q po Hq.
    assert (q <> r) by congruence.
    rewrite lookup_insert_ne by done.
    destruct (decide (q = self)) as [->|Hqs].
    + rewrite lookup_insert_eq. assert (po = o) as -> by congruence.
      by eexists.
    + rewrite !lookup_insert_ne by done. by eexists.
Qed.

End ConstructionFacts.

Section ColourAndHandleFacts.

Context `{Collaborators}.

Implicit Types (w : World) (h : gmap ref SceneObject) (o : SceneObject).
Implicit Types (r self : ref).

Lemma set_contrastcolor_id o v :
  _contrastcolor o = Some v -> set_contrastcolor (Some v) o = o.
Proof. destruct o. cbn. by intros ->. Qed.

(** X9. Reading [contrastcolor] is idempotent in every state: the read
    returns a colour, stores it in the [_contrastcolor] field of the object
    and changes nothing else, neither another field nor another object nor
    the backend; a second read returns the same colour and leaves the world
    as the first left it. *)
Theorem contrastcolor_read_twice w self o :
  heap w !! self = Some o ->
  let read1 := run (contrastcolor self) w in
  let read2 := run (contrastcolor self) read1.2 in
  exists v,
    read1.1 = inr v
    /\ heap read1.2 = <[self := set_contrastcolor (Some v) o]> (heap w)
    /\ backend read1.2 = backend w
    /\ read2 = (inr v, read1.2).
Proof.
  intros Hs read1 read2.
  destruct (_contrastcolor o) as [v|] eqn:Hstored.
  - assert (Hread1 : read1 = (inr v, w)) by by apply (contrastcolor_hit _ _ o).
    exists v. unfold read2. rewrite Hread1. cbn [fst snd].
    rewrite (set_contrastcolor_id _ _ Hstored), (insert_id _ _ _ Hs).
    repeat split. by apply (contrastcolor_hit _ _ o).
  - pose proof (contrastcolor_miss _ _ _ Hs Hstored) as Hread1.
    fold read1 in Hread1. cbn zeta in Hread1.
    eexists. unfold read2. rewrite Hread1. cbn [fst snd heap backend with_heap].
    repeat split.
    eapply contrastcolor_hit; [cbn; apply lookup_insert_eq|reflexivity].
Qed.

(** X10. A contrast colour assigned through the setter is what the getter
    returns, whatever the colour of the object is, and that read writes
    nothing. *)
Theorem contrastcolor_set_get w self o c :
  heap w !! self = Some o ->
  let w' := (run (contrastcolor_set self c) w).2 in
  run (contrastcolor self) w' = (inr c, w')
  /\ color <$> heap w' !! self = Some (color o).
Proof.
  intros Hs w'. unfold w', contrastcolor_set.
  rewrite (run_assign _ _ _ _ Hs). cbn [snd]. split.
  - eapply contrastcolor_hit; [cbn; apply lookup_insert_eq|reflexivity].
  - cbn. by rewrite lookup_insert_eq.
Qed.

(** X11. [clear] asks the backend to release exactly the handles that
    [guids] returns at the time of the call: the empty list on an object
    whose [_guids] is unset, the stored list otherwise; after the [draw] of
    a concrete class these are the handles that the backend gave out for
    the item. *)
Theorem clear_releases_guids w self o :
  heap w !! self = Some o ->
  backend (run (clear self) w).2 = context_clear (guids o) (backend w)
  /\ (_guids o = None ->
      backend (run (clear self) w).2 = context_clear [] (backend w))
  /\ (forall gs, _guids o = Some gs ->
      backend (run (clear self) w).2 = context_clear gs (backend w))
  /\ (let drawn := (run (draw_concrete self) w).2 in
      let handles := (backend_draw (item o) (backend w)).1 in
      backend (run (clear self) drawn).2 = context_clear handles (backend drawn)).
Proof.
  intros Hs. rewrite (run_clear _ _ _ Hs). cbn [snd backend].
  split; [done|]. split; [|split].
  - intros Hnone. by rewrite guids_default, Hnone.
  - intros gs Hgs. by rewrite guids_default, Hgs.
  - cbn zeta. rewrite (run_draw_concrete _ _ _ Hs). cbn [snd].
    erewrite run_clear by (cbn; apply lookup_insert_eq).
    cbn [snd backend]. by rewrite guids_default.
Qed.

(** The heap after a read of [contrastcolor]. *)
Lemma contrastcolor_read_state w self o :
  heap w !! self = Some o ->
  exists v,
    heap (run (contrastcolor self) w).2
    = <[self := set_contrastcolor (Some v) o]> (heap w).
Proof.
  intros Hs. destruct (_contrastcolor o) as [v|] eqn:Hstored.
  - exists v. rewrite (contrastcolor_hit _ _ _ _ Hs Hstored). cbn [snd].
    by rewrite (set_contrastcolor_id _ _ Hstored), (insert_id _ _ _ Hs).
  - eexists. by rewrite (contrastcolor_miss _ _ _ Hs Hstored).
Qed.

End ColourAndHandleFacts.

Section ExportFacts.

Context `{Collaborators}.

Variable item_guid : Item -> string.

Implicit Types (w : World) (h : gmap ref SceneObject) (o : SceneObject).
Implicit Types (r self : ref).

(** X12. The [settings] dict always has the keys [name], [color],
    [opacity] and [show] with the values of the object; it has the key
    [frame] exactly when a frame is set and the key [transformation]
    exactly when a transformation is set, and it has no other key. *)
Theorem settings_keys o :
  settings o !! "name"%string = Some (SName (name o))
  /\ settings o !! "color"%string = Some (SColor (color o))
  /\ settings o !! "opacity"%string = Some (SOpacity (opacity o))
  /\ settings o !! "show"%string = Some (SShow (show o))
  /\ settings o !! "frame"%string = SFrame <$> frame o
  /\ settings o !! "transformation"%string
     = STransformation <$> transformation o
  /\ (forall key, is_Some (settings o !! key) ->
        key ∈ ["name"; "color"; "opacity"; "show"; "frame";
               "transformation"]%string)
  /\ size (settings o)
     = 4 + match frame o with Some _ => 1 | None => 0 end
         + match transformation o with Some _ => 1 | None => 0 end.
Proof.
  unfold settings.
  destruct (frame o) as [f|], (transformation o) as [t|];
    split_and!; try by simplify_map_eq.
  all: try (intros key [v Hv];
            repeat (apply lookup_insert_Some in Hv as [[<- _]|[_ Hv]];
                    [set_solver|]);
            by rewrite lookup_empty in Hv).
  all: repeat (rewrite map_size_insert_None by by simplify_map_eq).
  all: by rewrite map_size_empty.
Qed.

Lemma data_unfold fuel h o :
  __data__ item_guid (S fuel) h o
  = (children ←
       mapM (fun child => c ← h !! child; __data__ item_guid fuel h c)
            (_children o);
     Some (Data (item_guid (item o)) (settings o) children)).
Proof. reflexivity. Qed.

(** [__data__] reads the item, the settings and the children of an object
    and nothing else. *)
Lemma data_congr fuel h o o' :
  item o' = item o -> settings o' = settings o -> _children o' = _children o ->
  __data__ item_guid fuel h o' = __data__ item_guid fuel h o.
Proof.
  intros Hi Hset Hch. destruct fuel as [|fuel]; [done|].
  rewrite !data_unfold. by rewrite Hi, Hset, Hch.
Qed.

Lemma data_insert_same h r ro ro' :
  h !! r = Some ro ->
  item ro' = item ro -> settings ro' = settings ro ->
  _children ro' = _children ro ->
  forall fuel o,
    __data__ item_guid fuel (<[r := ro']> h) o = __data__ item_guid fuel h o.
Proof.
  intros Hr Hi Hset Hch. induction fuel as [|fuel IH]; intros o; [done|].
  rewrite !data_unfold. f_equal. apply mapM_ext. intros child.
  destruct (decide (r = child)) as [<-|Hne].
  - rewrite lookup_insert_eq, Hr. cbn. rewrite IH. by apply data_congr.
  - rewrite lookup_insert_ne by done.
    destruct (h !! child) as [c|]; [|done]. cbn. apply IH.
Qed.

(** X13. On a tree, [__data__] returns, and the nested dict mirrors the
    tree: when the children links below an object lead to objects for at
    most [d] levels, any fuel from [d] on gives a dict with the identity of
    the item and the settings of the object, whose children are, in order,
    the dicts of the object's children, and which has one dict for every
    object of the tree. *)
Theorem data_mirrors_tree d h o :
  tree_below d h o ->
  forall fuel, d <= fuel ->
    exists dt,
      __data__ item_guid fuel h o = Some dt
      /\ mirrors item_guid h o dt
      /\ data_item dt = item_guid (item o)
      /\ data_settings dt = settings o
      /\ length (data_children dt) = length (_children o)
      /\ count_dicts dt = count_objects d h o.
Proof.
  revert o. induction d as [|d IH]; intros o Htree fuel Hfuel; [done|].
  destruct fuel as [|fuel]; [lia|]. simpl in Htree. rewrite data_unfold.
  assert (Hchildren : exists dcs,
    mapM (fun child => c ← h !! child; __data__ item_guid fuel h c)
         (_children o)
    = Some dcs
    /\ Forall2 (fun child dc =>
                  exists c, h !! child = Some c /\ mirrors item_guid h c dc)
               (_children o) dcs
    /\ sum_list (count_dicts <$> dcs)
       = sum_list ((fun child => match h !! child with
                                 | Some c => count_objects d h c
                                 | None => 0
                                 end) <$> _children o)).
  { induction Htree as [|child rest (c & Hc & Hbelow) _ IHrest].
    - exists []. by repeat split.
    - destruct IHrest as (dcs & Hmap & Hall & Hsum).
      destruct (IH c Hbelow fuel ltac:(lia)) as (dc & Hdc & Hmir & _ & _ & _ & Hn).
      exists (dc :: dcs). split; [|split].
      + cbn. rewrite Hc. cbn. rewrite Hdc. cbn.
        cbn in Hmap. by rewrite Hmap.
      + constructor; eauto.
      + cbn. rewrite Hc, Hn, Hsum. done. }
  destruct Hchildren as (dcs & Hmap & Hall & Hsum).
  rewrite Hmap. cbn.
  eexists. split; [reflexivity|]. split; [by constructor|].
  cbn. repeat split.
  - symmetry. by eapply Forall2_length.
  - by rewrite Hsum.
Qed.

(** X14. Handles and stored contrast colours are not exported: after
    [clear], and after a read of [contrastcolor], every scene object has
    the [__data__] it had before. *)
Theorem data_ignores_handles w self o :
  heap w !! self = Some o ->
  let cleared := (run (clear self) w).2 in
  let read := (run (contrastcolor self) w).2 in
  forall fuel r ob,
    heap w !! r = Some ob ->
    (exists ob', heap cleared !! r = Some ob'
       /\ __data__ item_guid fuel (heap cleared) ob'
          = __data__ item_guid fuel (heap w) ob)
    /\ (exists ob', heap read !! r = Some ob'
       /\ __data__ item_guid fuel (heap read) ob'
          = __data__ item_guid fuel (heap w) ob).
Proof.
  intros Hs cleared read fuel r ob Hob.
  assert (Hupdate : forall o',
    item o' = item o -> settings o' = settings o -> _children o' = _children o ->
    exists ob', <[self := o']> (heap w) !! r = Some ob'
      /\ __data__ item_guid fuel (<[self := o']> (heap w)) ob'
         = __data__ item_guid fuel (heap w) ob).
  { intros o' Hi Hset Hch.
    destruct (decide (self = r)) as [<-|Hne].
    - exists o'. rewrite lookup_insert_eq. split; [done|].
      rewrite (data_insert_same _ _ o) by done.
      assert (ob = o) as -> by congruence. by apply data_congr.
    - exists ob. rewrite lookup_insert_ne by done. split; [done|].
      by apply (data_insert_same _ _ o). }
  split.
  - unfold cleared. rewrite (run_clear _ _ _ Hs). cbn [snd heap].
    by apply Hupdate.
  - unfold read. destruct (contrastcolor_read_state w self o Hs) as (v & ->).
    by apply Hupdate.
Qed.

End ExportFacts.

(** ** Consecutive pairs *)

Lemma pairwise_lookup {A} (xs : list A) (k : nat) :
  pairwise xs !! k = (a ← xs !! k; b ← xs !! S k; Some (a, b)).
Proof. unfold pairwise. by rewrite lookup_zip_with, lookup_tail. Qed.

Lemma pairwise_length {A} (xs : list A) :
  length (pairwise xs) = length xs - 1.
Proof.
  unfold pairwise. rewrite length_zip_with.
  destruct xs; cbn [tail length]; lia.
Qed.

(** X15. The expected lines of the polyhedron test, for any list of
    vertices: [pairwise(vertices + vertices[:1])] has as many pairs as there
    are vertices (none for no vertex), and pair [k] leads from vertex [k] to
    vertex [k + 1], the last pair leading back to vertex 0; a single vertex
    gives one pair from the vertex to itself. *)
Theorem ring_pairs {A} (vertices : list A) :
  length (pairwise (vertices ++ take 1 vertices)) = length vertices
  /\ forall k a,
       vertices !! k = Some a ->
       exists b,
         vertices !! ((k + 1) mod length vertices) = Some b
         /\ pairwise (vertices ++ take 1 vertices) !! k = Some (a, b).
Proof.
  split.
  - rewrite pairwise_length, length_app.
    destruct vertices as [|v vs]; [done|]. cbn [take length].
    rewrite take_0. cbn [length]. lia.
  - intros k a Hk.
    pose proof (lookup_lt_Some _ _ _ Hk) as Hlt.
    rewrite pairwise_lookup, (lookup_app_l_Some _ _ _ _ Hk). cbn.
    destruct (decide (S k < length vertices)) as [Hin|Hlast].
    + destruct (lookup_lt_is_Some_2 vertices (S k) Hin) as [b Hb].
      exists b. rewrite Nat.mod_small by lia.
      replace (k + 1) with (S k) by lia.
      by rewrite (lookup_app_l_Some _ _ _ _ Hb).
    + assert (S k = length vertices) as Hn by lia.
      replace (k + 1) with (length vertices) by lia.
      rewrite Nat.Div0.mod_same.
      destruct vertices as [|v vs]; [done|]. exists v. split; [done|].
      rewrite lookup_app_r by lia. rewrite Hn, Nat.sub_diag. done.
Qed.

(** ** The strip of polygons *)

Section StripFacts.

Variables (number point : Type).
Variable Point : number -> point.
Variables (shift_up shift_down : point -> point).

Lemma rails_from (numbers : list number) (up down : list point) :
  foldl (fun '(up, down) i =>
           let point := Point i in
           (up ++ [shift_up point], down ++ [shift_down point]))
        (up, down) numbers
  = (up ++ ((fun i => shift_up (Point i)) <$> numbers),
     down ++ ((fun i => shift_down (Point i)) <$> numbers)).
Proof.
  revert up down. induction numbers as [|i numbers IH]; intros up down.
  - by rewrite !app_nil_r.
  - cbn [foldl fmap list_fmap]. rewrite IH. by rewrite <- !app_assoc.
Qed.

Lemma polygons_from (pairs : list ((point * point) * (point * point)))
    (acc : list (list point)) :
  foldl (fun polygons '((d, c), (a, b)) => polygons ++ [[a; b; c; d]]) acc pairs
  = acc ++ ((fun '((d, c), (a, b)) => [a; b; c; d]) <$> pairs).
Proof.
  revert acc. induction pairs as [|[[d c] [a b]] pairs IH]; intros acc.
  - by rewrite app_nil_r.
  - cbn [foldl fmap list_fmap]. rewrite IH. by rewrite <- app_assoc.
Qed.

(** X16. The strip of the sample: the two loops give one point of [up] and
    one of [down] per number, in order, and one polygon less than there are
    numbers (none for fewer than two); polygon [k] runs from point [k] of
    [down] to point [k + 1] of [down], up to point [k + 1] of [up] and back
    to point [k] of [up], so that consecutive polygons share an edge. *)
Theorem strip_polygons (numbers : list number) :
  let up := (rails number point Point shift_up shift_down numbers).1 in
  let down := (rails number point Point shift_up shift_down numbers).2 in
  up = (fun i => shift_up (Point i)) <$> numbers
  /\ down = (fun i => shift_down (Point i)) <$> numbers
  /\ length (polygons point up down) = length numbers - 1
  /\ forall k i j,
       numbers !! k = Some i -> numbers !! S k = Some j ->
       polygons point up down !! k
       = Some [shift_down (Point i); shift_down (Point j);
               shift_up (Point j); shift_up (Point i)].
Proof.
  intros up down.
  assert (Hup : up = (fun i => shift_up (Point i)) <$> numbers).
  { unfold up, rails. by rewrite rails_from. }
  assert (Hdown : down = (fun i => shift_down (Point i)) <$> numbers).
  { unfold down, rails. by rewrite rails_from. }
  split; [done|]. split; [done|].
  unfold polygons. rewrite polygons_from. cbn [app]. split.
  - rewrite length_fmap, length_zip_with, !pairwise_length.
    rewrite Hup, Hdown, !length_fmap. lia.
  - intros k i j Hi Hj.
    rewrite list_lookup_fmap, lookup_zip_with.
    rewrite !pairwise_lookup, Hup, Hdown, !list_lookup_fmap, Hi, Hj.
    reflexivity.
Qed.

End StripFacts.

(** ** Concrete runs of the further properties *)

Section MoreScenes.

#[local] Existing Instance Toy.toy.

Import Toy.

(** X1, witness: the frame of the root of the chain is replaced; object 3
    keeps its world transformation. *)
Lemma root_frame_ignored_witness :
  let w := world_of chain4 in
  let w' := (run (frame_set 0 (Some (5, 5)%Z)) w).2 in
  heap w !! 0 = Some obj_root /\ is_root obj_root = true
  /\ heap w' !! 3 = Some obj_c
  /\ worldtransformation 3 (heap w') obj_c = Some (6, 35)%Z.
Proof.
  intros w w'.
  assert (Hr : heap w !! 0 = Some obj_root) by reflexivity.
  split; [exact Hr|]. split; [reflexivity|]. split; [reflexivity|].
  destruct (root_frame_ignored w 0 obj_root (Some (5, 5)%Z) Hr eq_refl)
    as [_ Hsame].
  unfold w'. rewrite (Hsame 3 obj_c obj_c 3 eq_refl eq_refl). reflexivity.
Defined.

(** X2, witness: the transformation of object 2 is replaced; object 3,
    below it, keeps its world transformation. *)
Lemma transformation_set_local_witness :
  let w := world_of chain4 in
  let w' := (run (transformation_set 2 (Some (100, 100)%Z)) w).2 in
  heap w !! 2 = Some obj_b
  /\ worldtransformation 3 (heap w') obj_c = Some (6, 35)%Z.
Proof.
  intros w w'.
  assert (Hr : heap w !! 2 = Some obj_b) by reflexivity.
  split; [exact Hr|].
  destruct (transformation_set_local w 2 obj_b (Some (100, 100)%Z) Hr)
    as (_ & _ & Hothers).
  destruct (Hothers 3 obj_c 3 ltac:(discriminate) eq_refl) as [_ Hsame].
  unfold w'. rewrite Hsame. reflexivity.
Defined.

(** X3, witness: the frame of object 3 is replaced; its own world
    transformation is the same, its walk visiting 2 and 1. *)
Lemma frame_set_off_path_witness :
  let w := world_of chain4 in
  let w' := (run (frame_set 3 None) w).2 in
  heap w !! 3 = Some obj_c
  /\ visited_refs (heap w) (_parent obj_c) [2; 1]
  /\ (3 ∉ [2; 1])
  /\ worldtransformation 3 (heap w') (set_frame None obj_c) = Some (6, 35)%Z.
Proof.
  intros w w'.
  assert (Hs : heap w !! 3 = Some obj_c) by reflexivity.
  assert (Hwalk : visited_refs (heap w) (_parent obj_c) [2; 1]).
  { apply (refs_above _ 2 obj_b); [reflexivity|reflexivity|].
    apply (refs_above _ 1 obj_a); [reflexivity|reflexivity|].
    apply (refs_root _ 0 obj_root); reflexivity. }
  assert (Hoff : 3 ∉ [2; 1]).
  { intros Hin. apply list_elem_of_In in Hin. simpl in Hin.
    destruct Hin as [Hin|[Hin|[]]]; discriminate Hin. }
  split; [exact Hs|]. split; [exact Hwalk|]. split; [exact Hoff|].
  unfold w'.
  rewrite (frame_set_off_path w 3 obj_c None Hs 3 obj_c (set_frame None obj_c)
             [2; 1] 3 Hs eq_refl Hwalk Hoff).
  reflexivity.
Defined.

(** X4, witness: an item without a class under the Rhino parent. *)
Lemma add_item_errors_witness :
  let w := world_of rhino_blender in
  heap w !! 0 = Some obj_p
  /\ run (add 0 (IsItem "unknown"%string) no_kwargs) w
     = (inl (SceneObjectNotRegisteredError "unknown"%string
               (Some "Rhino"%string)), w).
Proof.
  intros w.
  assert (Hs : heap w !! 0 = Some obj_p) by reflexivity.
  split; [exact Hs|].
  destruct (add_item_errors w 0 obj_p "unknown"%string no_kwargs Hs)
    as [_ Hunregistered].
  apply Hunregistered; [left; reflexivity|reflexivity].
Defined.

(** X5, witness: [context = "Rhino"] under the Rhino parent. *)
Lemma add_item_agreeing_context_witness :
  let w := world_of rhino_blender in
  heap w !! 0 = Some obj_p
  /\ run (add 0 (IsItem "mesh"%string)
            (with_context (Some (Some "Rhino"%string)) placed)) w
     = run (add 0 (IsItem "mesh"%string) (with_context None placed)) w.
Proof.
  intros w.
  assert (Hs : heap w !! 0 = Some obj_p) by reflexivity.
  split; [exact Hs|].
  exact (add_item_agreeing_context w 0 obj_p "mesh"%string placed Hs).
Defined.

(** X6, witness: a mesh added under the Rhino parent. *)
Lemma add_item_is_construct_then_add_witness :
  let w := world_of rhino_blender in
  heap w !! 0 = Some obj_p
  /\ kw_context placed = None
  /\ run (add 0 (IsItem "mesh"%string) placed) w
     = run (sceneobject ←
              SceneObject_new "mesh"%string
                (with_context (Some (Some "Rhino"%string)) placed);
            add 0 (IsSceneObject sceneobject) no_kwargs) w.
Proof.
  intros w.
  assert (Hs : heap w !! 0 = Some obj_p) by reflexivity.
  split; [exact Hs|]. split; [reflexivity|].
  exact (add_item_is_construct_then_add w 0 obj_p "mesh"%string placed Hs
           (or_introl eq_refl)).
Defined.

(** X7, witness: a scene object constructed with an empty name takes the
    name of its item. *)
Lemma SceneObject_new_attributes_witness :
  let w := world_of rhino_blender in
  let kwargs := mkKwargs (Some ""%string) None None None None None None in
  registry "mesh"%string None = Some "ViewerObject"%string
  /\ exists r c,
       run (SceneObject_new "mesh"%string kwargs) w
       = (inr r, with_heap (<[r := c]> (heap w)) w)
       /\ name c = "mesh"%string.
Proof.
  intros w kwargs. split; [reflexivity|].
  destruct (SceneObject_new_attributes w "mesh"%string kwargs) as [_ Hnew].
  destruct (Hnew "ViewerObject"%string eq_refl)
    as (r & c & Hrun & _ & _ & _ & _ & Hname & _).
  exists r, c. split; [exact Hrun|exact Hname].
Defined.

(** X8, witness: a leaf added under object 3 of the chain, with a frame
    and a transformation of its own. *)
Lemma added_child_worldtransformation_witness :
  let w := world_of chain4 in
  let result := run (add 3 (IsItem "mesh"%string) placed) w in
  heap w !! 3 = Some obj_c
  /\ visited_ancestors (heap w) (Some 3) [obj_c; obj_b; obj_a]
  /\ exists r c,
       result.1 = inr r /\ heap result.2 !! r = Some c
       /\ worldtransformation 4 (heap result.2) c = Some (66, 353)%Z.
Proof.
  intros w result.
  assert (Hs : heap w !! 3 = Some obj_c) by reflexivity.
  assert (Hvisited : visited_ancestors (heap w) (Some 3) [obj_c; obj_b; obj_a]).
  { apply (visited_above _ 3 obj_c); [reflexivity|reflexivity|].
    apply (visited_above _ 2 obj_b); [reflexivity|reflexivity|].
    apply (visited_above _ 1 obj_a); [reflexivity|reflexivity|].
    apply (visited_root _ 0 obj_root); reflexivity. }
  split; [exact Hs|]. split; [exact Hvisited|].
  destruct (added_child_worldtransformation w 3 obj_c "mesh"%string placed
              "ViewerObject"%string _ Hs (or_introl eq_refl) eq_refl Hvisited)
    as (r & c & Hret & Hc & _ & Hworld).
  exists r, c. split; [exact Hret|]. split; [exact Hc|].
  rewrite Hworld; [reflexivity|simpl; lia].
Defined.

(** X9, witness: the white object read twice. *)
Lemma contrastcolor_read_twice_witness :
  let w := world_of white_scene in
  let read1 := run (contrastcolor 0) w in
  heap w !! 0 = Some obj_white
  /\ exists v, read1.1 = inr v
               /\ run (contrastcolor 0) read1.2 = (inr v, read1.2).
Proof.
  intros w read1.
  assert (Hs : heap w !! 0 = Some obj_white) by reflexivity.
  split; [exact Hs|].
  destruct (contrastcolor_read_twice w 0 obj_white Hs)
    as (v & Hv & _ & _ & Hagain).
  exists v. split; [exact Hv|exact Hagain].
Defined.

(** X10, witness: red assigned to the white object. *)
Lemma contrastcolor_set_get_witness :
  let w := world_of white_scene in
  let w' := (run (contrastcolor_set 0 red) w).2 in
  heap w !! 0 = Some obj_white
  /\ run (contrastcolor 0) w' = (inr red, w').
Proof.
  intros w w'.
  assert (Hs : heap w !! 0 = Some obj_white) by reflexivity.
  split; [exact Hs|].
  destruct (contrastcolor_set_get w 0 obj_white red Hs) as [Hget _].
  exact Hget.
Defined.

(** X11, witness: object 3 of the chain, never drawn, is cleared: the
    backend is asked to release nothing. *)
Lemma clear_releases_guids_witness :
  let w := world_of chain4 in
  heap w !! 3 = Some obj_c
  /\ released (backend (run (clear 3) w).2) = [[]].
Proof.
  intros w.
  assert (Hs : heap w !! 3 = Some obj_c) by reflexivity.
  split; [exact Hs|].
  destruct (clear_releases_guids w 3 obj_c Hs) as (_ & Hunset & _).
  rewrite (Hunset eq_refl). reflexivity.
Defined.

(** X12, witness: the settings of object 3 of the chain, which has both a
    frame and a transformation. *)
Lemma settings_keys_witness :
  settings obj_c !! "frame"%string = Some (SFrame (11, 13)%Z)
  /\ size (settings obj_c) = 6.
Proof.
  destruct (settings_keys obj_c) as (_ & _ & _ & _ & Hframe & _ & _ & Hsize).
  split; [exact Hframe|exact Hsize].
Defined.

(** X13, witness: the chain of four exported from its root. *)
Lemma data_mirrors_tree_witness :
  tree_below 4 chain4 obj_root
  /\ exists dt,
       __data__ toy_guid 4 chain4 obj_root = Some dt
       /\ data_item dt = "guid-root"%string
       /\ count_dicts dt = 4.
Proof.
  assert (Htree : tree_below 4 chain4 obj_root).
  { repeat (constructor; [eexists; split; [reflexivity|]|constructor]).
    constructor. }
  split; [exact Htree|].
  destruct (data_mirrors_tree (H := toy) toy_guid 4 chain4 obj_root Htree 4 (le_n 4))
    as (dt & Hdt & _ & Hitem & _ & _ & Hcount).
  exists dt. split; [exact Hdt|]. split; [exact Hitem|exact Hcount].
Defined.

(** X14, witness: object 3 of the chain is cleared; the export of the
    root is the same. *)
Lemma data_ignores_handles_witness :
  let w := world_of chain4 in
  let cleared := (run (clear 3) w).2 in
  heap w !! 3 = Some obj_c
  /\ exists root', heap cleared !! 0 = Some root'
       /\ __data__ toy_guid 4 (heap cleared) root'
          = __data__ toy_guid 4 (heap w) obj_root.
Proof.
  intros w cleared.
  assert (Hs : heap w !! 3 = Some obj_c) by reflexivity.
  split; [exact Hs|].
  destruct (data_ignores_handles (H := toy) toy_guid w 3 obj_c Hs 4 0 obj_root eq_refl)
    as [Hcleared _].
  exact Hcleared.
Defined.

(** X15, witness: the closing pair of the vertex ring of the test. *)
Lemma ring_pairs_witness :
  test_vertices !! 3 = Some [0; 1; 0]%Z
  /\ pairwise (test_vertices ++ take 1 test_vertices) !! 3
     = Some ([0; 1; 0], [0; 0; 0])%Z.
Proof.
  split; [reflexivity|].
  destruct (ring_pairs test_vertices) as [_ Hpair].
  destruct (Hpair 3 [0; 1; 0]%Z eq_refl) as (b & Hb & ->).
  injection Hb as <-. reflexivity.
Defined.

(** X16, witness: three numbers give two polygons; the first one. *)
Lemma strip_polygons_witness :
  let numbers := [0; 5; 10]%Z in
  let up := (rails Z (Z * Z) axis_point up3 down3 numbers).1 in
  let down := (rails Z (Z * Z) axis_point up3 down3 numbers).2 in
  numbers !! 0 = Some 0%Z /\ numbers !! 1 = Some 5%Z
  /\ length (polygons (Z * Z) up down) = 2
  /\ polygons (Z * Z) up down !! 0
     = Some [(0, -3); (5, -3); (5, 3); (0, 3)]%Z.
Proof.
  intros numbers up down.
  split; [reflexivity|]. split; [reflexivity|].
  destruct (strip_polygons Z (Z * Z) axis_point up3 down3 numbers)
    as (_ & _ & Hlength & Hpolygon).
  split; [exact Hlength|].
  exact (Hpolygon 0 0%Z 5%Z eq_refl eq_refl).
Defined.

End MoreScenes.

(** * The polyhedron test *)

(** Pair [k] of the ring over [xs] leads from element [k] to the next one,
    and from the last element back to the first. *)
Lemma ring_lookup {A} (xs : list A) (k : nat) (a : A) :
  xs !! k = Some a ->
  exists b,
    xs !! ((k + 1) mod length xs) = Some b
    /\ pairwise (xs ++ take 1 xs) !! k = Some (a, b).
Proof.
  intros Hk. pose proof (lookup_lt_Some _ _ _ Hk) as Hlt.
  rewrite pairwise_lookup, (lookup_app_l_Some _ _ _ _ Hk). cbn.
  destruct (decide (S k < length xs)) as [Hin|Hlast].
  - destruct (lookup_lt_is_Some_2 xs (S k) Hin) as [b Hb].
    exists b. rewrite Nat.mod_small by lia.
    replace (k + 1) with (S k) by lia.
    by rewrite (lookup_app_l_Some _ _ _ _ Hb).
  - assert (S k = length xs) as Hn by lia.
    replace (k + 1) with (length xs) by lia.
    rewrite Nat.Div0.mod_same.
    destruct xs as [|x xs]; [done|]. exists x. split; [done|].
    rewrite lookup_app_r by lia. rewrite Hn, Nat.sub_diag. done.
Qed.

Lemma ring_length {A} (xs : list A) :
  length (pairwise (xs ++ take 1 xs)) = length xs.
Proof.
  rewrite pairwise_length, length_app.
  destruct xs as [|x xs]; [done|]. cbn [take length].
  rewrite take_0. cbn [length]. lia.
Qed.

(** Pairs none of which repeats an earlier one, in either direction, are
    all kept. *)
Lemma new_edges_distinct (seen pairs : list (nat * nat)) :
  (forall i u v, pairs !! i = Some (u, v) ->
     ((u, v) ∉ seen) /\ ((v, u) ∉ seen)
     /\ forall j, j < i ->
          pairs !! j <> Some (u, v) /\ pairs !! j <> Some (v, u)) ->
  Polyhedron.new_edges seen pairs = pairs.
Proof.
  revert seen. induction pairs as [|[u v] rest IH]; intros seen Hnew; [done|].
  destruct (Hnew 0 u v eq_refl) as (Huv & Hvu & _).
  cbn [Polyhedron.new_edges]. rewrite decide_False by tauto.
  f_equal. apply IH. intros i u' v' Hi.
  destruct (Hnew (S i) u' v' Hi) as (Hs1 & Hs2 & Hearlier).
  destruct (Hearlier 0 ltac:(lia)) as [Hne1 Hne2]. cbn in Hne1, Hne2.
  split; [|split].
  - rewrite elem_of_cons. intros [Heq|Hin]; [|done]. congruence.
  - rewrite elem_of_cons. intros [Heq|Hin]; [|done]. congruence.
  - intros j Hj. apply (Hearlier (S j)). lia.
Qed.

(** The ring of the face [0, 1, ..., n - 1]. *)
Lemma ring_seq_lookup (n i u v : nat) :
  Polyhedron.ring (seq 0 n) !! i = Some (u, v) ->
  i < n /\ u = i /\ v = (i + 1) mod n.
Proof.
  intros Hi. unfold Polyhedron.ring in Hi.
  assert (Hlt : i < n).
  { apply lookup_lt_Some in Hi. by rewrite ring_length, length_seq in Hi. }
  destruct (ring_lookup (seq 0 n) i i) as (b & Hb & Hpair).
  { by rewrite lookup_seq_lt. }
  rewrite length_seq in Hb. rewrite Hpair in Hi. injection Hi as <- <-.
  apply lookup_seq in Hb as [-> _]. done.
Qed.

Lemma ring_seq_edges (n : nat) :
  3 <= n ->
  Polyhedron.new_edges [] (Polyhedron.ring (seq 0 n) ++ [])
  = Polyhedron.ring (seq 0 n).
Proof.
  intros Hn. rewrite app_nil_r. apply new_edges_distinct.
  intros i u v Hi. apply ring_seq_lookup in Hi as (Hlt & -> & ->).
  split; [apply not_elem_of_nil|]. split; [apply not_elem_of_nil|].
  intros j Hj. split; intros Hpair;
    apply ring_seq_lookup in Hpair as (_ & Hu & Hv).
  - lia.
  - destruct (decide (i + 1 < n)) as [Hsmall|Hwrap].
    + rewrite Nat.mod_small in Hu by lia. lia.
    + replace (i + 1) with n in Hu by lia.
      rewrite Nat.Div0.mod_same in Hu. subst j.
      rewrite Nat.mod_small in Hv by lia. lia.
Qed.

(** C9. A polyhedron whose only face is the ring of all its vertices, three
    at least, in their order: [points] is the list of vertices, and [lines]
    is the list of the consecutive pairs of the vertex ring, the closing
    edge from the last vertex back to vertex 0 included.  That is so for
    the polyhedron of the test, whose four lines end with the closing edge,
    and the assertions of the test hold. *)
Theorem polyhedron_ring_lines :
  (forall (vertices : list (list Z)) (name : string),
     3 <= length vertices ->
     let polyhedron :=
       Polyhedron.mk vertices [seq 0 (length vertices)] name in
     Polyhedron.points polyhedron = vertices
     /\ Polyhedron.lines polyhedron
        = Some (pairwise (vertices ++ take 1 vertices)))
  /\ (let polyhedron := Polyhedron.mk test_vertices test_faces test_name in
      Polyhedron.points polyhedron = test_vertices
      /\ Polyhedron.lines polyhedron
         = Some [([0; 0; 0], [1; 0; 0]); ([1; 0; 0], [1; 1; 0]);
                 ([1; 1; 0], [0; 1; 0]); ([0; 1; 0], [0; 0; 0])]%Z
      /\ test_polyhedron = true).
Proof.
  assert (Hgeneral : forall (vertices : list (list Z)) (name : string),
     3 <= length vertices ->
     Polyhedron.lines (Polyhedron.mk vertices [seq 0 (length vertices)] name)
     = Some (pairwise (vertices ++ take 1 vertices))).
  { intros vertices name Hn. unfold Polyhedron.lines, Polyhedron.edges.
    cbn [Polyhedron.faces Polyhedron.vertices fmap list_fmap mjoin list_join].
    rewrite (ring_seq_edges _ Hn).
    apply mapM_Some_2, Forall2_same_length_lookup_2.
    - unfold Polyhedron.ring. by rewrite !ring_length, length_seq.
    - intros i [u v] [a b] Huv Hab.
      apply ring_seq_lookup in Huv as (Hlt & -> & ->).
      destruct (lookup_lt_is_Some_2 vertices i Hlt) as [a' Ha'].
      destruct (ring_lookup vertices i a' Ha') as (b' & Hb' & Hpair).
      rewrite Hpair in Hab. injection Hab as <- <-.
      by rewrite Ha', Hb'. }
  split.
  - intros vertices name Hn polyhedron. split; [done|]. by apply Hgeneral.
  - cbn zeta.
    assert (Htest : Polyhedron.lines
                      (Polyhedron.mk test_vertices test_faces test_name)
                    = Some (pairwise (test_vertices ++ take 1 test_vertices))).
    { apply (Hgeneral test_vertices test_name). cbn. lia. }
    split; [done|]. split; [by rewrite Htest|].
    unfold test_polyhedron. rewrite Htest. reflexivity.
Qed.

(** The faces matter: the six edges of a tetrahedron, each once. *)
Example tetrahedron_lines :
  Polyhedron.edges tetrahedron
  = [(0, 2); (2, 1); (1, 0); (1, 3); (3, 0); (2, 3)]
  /\ length <$> Polyhedron.lines tetrahedron = Some 6.
Proof. split; reflexivity. Qed.

(** C9, witness: the polyhedron of the test. *)
Lemma polyhedron_ring_lines_witness :
  3 <= length test_vertices
  /\ test_faces = [seq 0 (length test_vertices)]
  /\ Polyhedron.lines (Polyhedron.mk test_vertices test_faces test_name)
     = Some (pairwise (test_vertices ++ take 1 test_vertices)).
Proof.
  assert (Hn : 3 <= length test_vertices) by (cbn; lia).
  split; [exact Hn|]. split; [reflexivity|].
  destruct polyhedron_ring_lines as [Hgeneral _].
  destruct (Hgeneral test_vertices test_name Hn) as [_ Hlines].
  exact Hlines.
Defined.

(** * Serialising and reconstructing *)

Section SerialisationFacts.

Context `{Collaborators}.

Variable item_guid : Item -> string.

Implicit Types (w : World) (h : gmap ref SceneObject) (o : SceneObject).

(** On a tree, [__data__] returns. *)
Lemma data_returns d h o :
  tree_below d h o ->
  forall fuel, d <= fuel -> is_Some (__data__ item_guid fuel h o).
Proof.
  revert o. induction d as [|d IH]; intros o Htree fuel Hfuel; [done|].
  destruct fuel as [|fuel]; [lia|]. rewrite data_unfold.
  assert (Hchildren : is_Some
    (mapM (fun child => c ← h !! child; __data__ item_guid fuel h c)
          (_children o))).
  { apply mapM_is_Some_2. simpl in Htree.
    eapply Forall_impl; [exact Htree|].
    intros child (c & Hc & Hbelow). cbn. rewrite Hc. cbn.
    apply IH; [done|lia]. }
  destruct Hchildren as [dcs ->]. by eexists.
Qed.

(** C6 (amended). For every scene object, in every state, serialising the
    object itself does not fail: on a tree [__data__] returns the nested
    dict, which carries the identity of the item and the settings of the
    object.  What fails is the reconstruction: [__from_data__] raises the
    [TypeError] that says that serialisation outside a scene is not allowed,
    for every class and every data, the dict just produced included, and
    changes nothing. *)
Theorem data_returns_from_data_raises d w self o (c : Cls) :
  heap w !! self = Some o ->
  tree_below d (heap w) o ->
  forall fuel, d <= fuel ->
    (exists dt,
       __data__ item_guid fuel (heap w) o = Some dt
       /\ data_item dt = item_guid (item o)
       /\ data_settings dt = settings o
       /\ run (__from_data__ c dt) w
          = (inl (TypeError "Serialisation outside Scene not allowed."), w))
    /\ forall (Data : Type) (data : Data),
         run (__from_data__ c data) w
         = (inl (TypeError "Serialisation outside Scene not allowed."), w).
Proof.
  intros Hs Htree fuel Hfuel. split; [|done].
  destruct (data_returns d (heap w) o Htree fuel Hfuel) as [dt Hdt].
  exists dt. split; [done|].
  destruct fuel as [|fuel]; [done|]. rewrite data_unfold in Hdt.
  destruct (mapM _ _) as [dcs|]; [|done]. cbn in Hdt. injection Hdt as <-.
  done.
Qed.

End SerialisationFacts.

Section SerialisationScenes.

#[local] Existing Instance Toy.toy.

Import Toy.

(** C6, counterexample: the white object stands alone, with no parent, no
    children and no scene around it; serialising it raises nothing and
    returns the dict of its item and its settings. *)
Lemma data_of_standalone_object :
  heap (world_of white_scene) !! 0 = Some obj_white
  /\ _parent obj_white = None
  /\ __data__ toy_guid 1 white_scene obj_white
     = Some (Data "guid-m" (settings obj_white) [])
  /\ settings obj_white !! "name"%string = Some (SName "m")
  /\ settings obj_white !! "color"%string = Some (SColor white).
Proof. repeat split. Qed.

(** C6, witness: the white object is serialised, and the dict is refused by
    [__from_data__]. *)
Lemma data_returns_from_data_raises_witness :
  let w := world_of white_scene in
  heap w !! 0 = Some obj_white
  /\ tree_below 1 (heap w) obj_white
  /\ exists dt,
       __data__ toy_guid 1 (heap w) obj_white = Some dt
       /\ run (__from_data__ "ViewerObject"%string dt) w
          = (inl (TypeError "Serialisation outside Scene not allowed."), w).
Proof.
  intros w.
  assert (Hs : heap w !! 0 = Some obj_white) by reflexivity.
  assert (Htree : tree_below 1 (heap w) obj_white) by constructor.
  split; [exact Hs|]. split; [exact Htree|].
  destruct (data_returns_from_data_raises (H := toy) toy_guid 1 w 0 obj_white
              "ViewerObject"%string Hs Htree 1 (le_n 1))
    as [(dt & Hdt & _ & _ & Hraise) _].
  exists dt. split; [exact Hdt|exact Hraise].
Defined.

End SerialisationScenes.
